(** * CineRecap AI: device-fingerprint login, session restore and recap requests

    A shallow embedding of [App.tsx] (both committed variants),
    [services/geminiService.ts] and [types.ts].

    - JavaScript strings are sequences of UTF-16 code units, so that the
      failure of [btoa] on a code unit above 255 can be expressed.
    - Thrown exceptions and rejected promises are the [Throws] case of a
      result type; [try]/[catch] is [try_catch].
    - [JSON.parse] is a recursive-descent parser of the JSON grammar, shown
      to consume its input and to have fuel enough for every text.
    - The component state, [localStorage] and the requests awaited are one
      record, threaded through the event handlers; an asynchronous handler
      is split at its [await].
    - The two variants of [App.tsx] share everything but the authorization
      table, the fingerprint and the wording of one message: the
      definitions take the variant as a parameter. *)

From Stdlib Require Import ZArith NArith List Bool Ascii String DecimalString.
From stdpp Require Import base tactics option list gmap fin_maps countable.

Set Default Proof Using "Type".
Set Warnings "-register-all".
Local Open Scope N_scope.

(* ===================================================================== *)
(** ** JavaScript strings *)

(** A JS string: its UTF-16 code units, each in 0..65535. *)
Abbreviation jsstring := (list N) (only parsing).

(** The string denoted by an ASCII literal of the source. *)
Definition js (s : string) : jsstring :=
  List.map N_of_ascii (list_ascii_of_string s).

(** The same, with every apostrophe of the literal standing for a
    quotation mark (code unit 34): used to write JSON texts. *)
Definition jsq (s : string) : jsstring :=
  List.map (λ c, if c =? 39 then 34 else c) (js s).

(** [ToString] of an integral JS number (decimal, a leading minus sign for
    negatives).  The numbers converted in this program are WebIDL [long] /
    [unsigned long] attributes and a timezone offset in minutes. *)
Definition number_toString (z : Z) : jsstring :=
  js (NilZero.string_of_int (Z.to_int z)).

(** [ToString] of a JS boolean. *)
Definition boolean_toString (b : bool) : jsstring :=
  if b then js "true" else js "false".

(** [Array.prototype.join] on elements already converted to strings. *)
Fixpoint join (sep : jsstring) (parts : list jsstring) : jsstring :=
  match parts with
  | [] => []
  | [p] => p
  | p :: rest => p ++ sep ++ join sep rest
  end.

(** [s.slice(0, n)]. *)
Definition slice_prefix (n : nat) (s : jsstring) : jsstring := take n s.

(** [s.slice(-n)]: the last [n] code units, all of [s] when it is shorter. *)
Definition slice_suffix (n : nat) (s : jsstring) : jsstring :=
  drop (length s - n)%nat s.

(** [haystack.includes(needle)] / "contains verbatim". *)
Definition contains (needle haystack : jsstring) : Prop :=
  ∃ before after, haystack = before ++ needle ++ after.

(* ===================================================================== *)
(** ** Exceptions *)

(** A thrown value, or the value a promise is rejected with, as the
    handlers observe it.  Of a value that has properties only [message] is
    read, [None] standing for a missing (or otherwise falsy) message;
    [Nullish] is [null] or [undefined], of which no property can be read. *)
Inductive Thrown :=
| mkThrown (err_name : jsstring) (err_message : option jsstring)
| Nullish.

Inductive Result (A : Type) : Type :=
| Returns (a : A)
| Throws (e : Thrown).
Arguments Returns {A} a.
Arguments Throws {A} e.

Definition rbind {A B} (r : Result A) (k : A → Result B) : Result B :=
  match r with
  | Returns a => k a
  | Throws e => Throws e
  end.

(** [try { body } catch (e) { handler(e) }]. *)
Definition try_catch {A} (body : Result A) (handler : Thrown → Result A) : Result A :=
  match body with
  | Returns a => Returns a
  | Throws e => handler e
  end.

(* ===================================================================== *)
(** ** [btoa] *)

Definition b64_alphabet : jsstring :=
  js "ABCDEFGHIJKLMNOPQRSTUVWXYZabcdefghijklmnopqrstuvwxyz0123456789+/".

Definition b64_digit (i : N) : N := nth (N.to_nat i) b64_alphabet 0.

Definition b64_pad : N := 61. (* '=' *)

(** Base64 of a sequence of octets, three octets to four digits, padded. *)
Fixpoint b64_encode (bytes : list N) : jsstring :=
  match bytes with
  | [] => []
  | [a] =>
      [ b64_digit (N.shiftr a 2);
        b64_digit (N.shiftl (N.land a 3) 4);
        b64_pad; b64_pad ]
  | [a; b] =>
      [ b64_digit (N.shiftr a 2);
        b64_digit (N.lor (N.shiftl (N.land a 3) 4) (N.shiftr b 4));
        b64_digit (N.shiftl (N.land b 15) 2);
        b64_pad ]
  | a :: b :: c :: rest =>
      b64_digit (N.shiftr a 2)
      :: b64_digit (N.lor (N.shiftl (N.land a 3) 4) (N.shiftr b 4))
      :: b64_digit (N.lor (N.shiftl (N.land b 15) 2) (N.shiftr c 6))
      :: b64_digit (N.land c 63)
      :: b64_encode rest
  end.

Definition is_latin1 (s : jsstring) : bool := forallb (λ c, c <=? 255) s.

Definition InvalidCharacterError : Thrown :=
  mkThrown (js "InvalidCharacterError") (Some (js "Invalid character")).

(** [window.btoa]: throws when a code unit is outside Latin-1. *)
Definition btoa (s : jsstring) : Result jsstring :=
  if is_latin1 s then Returns (b64_encode s) else Throws InvalidCharacterError.

(* ===================================================================== *)
(** ** The fingerprint generator *)

Inductive Variant := Variant1 | Variant2.

(** What [getDeviceFingerprint] reads from [window.navigator],
    [window.screen], [new Date()] and [window.chrome] in either variant. *)
Record Env := mkEnv {
  userAgent : jsstring;
  platform : jsstring;
  language : jsstring;
  hardwareConcurrency : option Z;  (* [None]: attribute undefined *)
  colorDepth : Z;
  width : Z;
  height : Z;
  availWidth : Z;
  availHeight : Z;
  timezoneOffset : Z;              (* [new Date().getTimezoneOffset()] *)
  chrome : bool                    (* truthiness of [window.chrome] *)
}.

(** [nav.hardwareConcurrency || 'unknown'], as the joined array element. *)
Definition hardwareConcurrency_or_unknown (h : option Z) : jsstring :=
  match h with
  | Some n => if (n =? 0)%Z then js "unknown" else number_toString n
  | None => js "unknown"
  end.

Definition is_lower (c : N) : bool := (97 <=? c) && (c <=? 122).
Definition is_upper (c : N) : bool := (65 <=? c) && (c <=? 90).

(** The class [[a-zA-Z0-0]] of variant 1's regular expression. *)
Definition in_class_a_z_A_Z_0_0 (c : N) : bool :=
  is_lower c || is_upper c || (c =? 48).

(** [.replace(/[^a-zA-Z0-0]/g, '')]. *)
Definition strip_non_class (s : jsstring) : jsstring :=
  List.filter in_class_a_z_A_Z_0_0 s.

(** [toUpperCase] on ASCII; it is applied to the output of
    [strip_non_class] only. *)
Definition toUpperCase (s : jsstring) : jsstring :=
  List.map (λ c, if is_lower c then c - 32 else c) s.

Definition idString (v : Variant) (env : Env) : jsstring :=
  match v with
  | Variant1 =>
      join (js "|")
        [ userAgent env;
          platform env;
          hardwareConcurrency_or_unknown (hardwareConcurrency env);
          number_toString (width env) ++ js "x" ++ number_toString (height env);
          number_toString (availWidth env) ++ js "x" ++ number_toString (availHeight env);
          number_toString (timezoneOffset env);
          js "v1" ]
  | Variant2 =>
      join (js "|")
        [ userAgent env;
          language env;
          number_toString (colorDepth env);
          number_toString (width env) ++ js "x" ++ number_toString (height env);
          number_toString (timezoneOffset env);
          boolean_toString (chrome env) ]
  end.

Definition sentinel (v : Variant) : jsstring :=
  match v with
  | Variant1 => js "ERR-DEVICE-ID"
  | Variant2 => js "UNKNOWN-DEVICE"
  end.

(** The body of the [try] block. *)
Definition encode_id (v : Variant) (s : jsstring) : Result jsstring :=
  rbind (btoa s) (λ b,
    match v with
    | Variant1 => Returns (toUpperCase (slice_suffix 12 (strip_non_class b)))
    | Variant2 => Returns (slice_prefix 16 b)
    end).

(** [getDeviceFingerprint] with its exceptional exits explicit. *)
Definition getDeviceFingerprint_result (v : Variant) (env : Env) : Result jsstring :=
  try_catch (encode_id v (idString v env)) (λ _, Returns (sentinel v)).

Definition getDeviceFingerprint (v : Variant) (env : Env) : jsstring :=
  match getDeviceFingerprint_result v env with
  | Returns fp => fp
  | Throws _ => sentinel v
  end.

(* ===================================================================== *)
(** ** JSON values and [JSON.parse] *)

(** A value produced by [JSON.parse].  A number keeps its lexeme: the
    program never computes with a parsed number.  An object keeps its
    members in source order, duplicates included. *)
Inductive Json :=
| JNull
| JBool (b : bool)
| JNum (lexeme : jsstring)
| JStr (s : jsstring)
| JArr (items : list Json)
| JObj (members : list (jsstring * Json)).

(** The own property [k] of a parsed object: of duplicate members the last
    one wins. *)
Definition own_property (k : jsstring) (members : list (jsstring * Json)) : option Json :=
  fold_left (λ acc m, if bool_decide (m.1 = k) then Some m.2 else acc) members None.

Definition TypeError : Thrown :=
  mkThrown (js "TypeError") (Some (js "Cannot read properties of null")).

(** [v.k] for a parsed value [v] and a property name [k] that no prototype
    defines (every name this program reads: [deviceId], [tagline], ...).
    [None] is [undefined]. *)
Definition get_prop (v : Json) (k : jsstring) : Result (option Json) :=
  match v with
  | JNull => Throws TypeError
  | JObj members => Returns (own_property k members)
  | _ => Returns None
  end.

(** [x === s] for a property value [x] ([None]: [undefined]) and a string
    [s]: only a string with the same code units is strictly equal to [s]. *)
Definition strict_equals_string (x : option Json) (s : jsstring) : bool :=
  match x with
  | Some (JStr t) => bool_decide (t = s)
  | _ => false
  end.

Inductive Parse (A : Type) : Type :=
| POk (a : A) (rest : jsstring)
| PSyntax
| PFuel.
Arguments POk {A} a rest.
Arguments PSyntax {A}.
Arguments PFuel {A}.

Definition is_ws (c : N) : bool :=
  (c =? 32) || (c =? 9) || (c =? 10) || (c =? 13).

Fixpoint skip_ws (s : jsstring) : jsstring :=
  match s with
  | c :: r => if is_ws c then skip_ws r else s
  | [] => []
  end.

Definition is_digit (c : N) : bool := (48 <=? c) && (c <=? 57).

Definition hex_value (c : N) : option N :=
  if is_digit c then Some (c - 48)
  else if (97 <=? c) && (c <=? 102) then Some (c - 87)
  else if (65 <=? c) && (c <=? 70) then Some (c - 55)
  else None.

Definition hex4 (a b c d : N) : option N :=
  match hex_value a, hex_value b, hex_value c, hex_value d with
  | Some x, Some y, Some z, Some w => Some (((x * 16 + y) * 16 + z) * 16 + w)
  | _, _, _, _ => None
  end.

(** The code unit a two-character escape stands for. *)
Definition unescape (e : N) : option N :=
  if e =? 34 then Some 34          (* quotation mark *)
  else if e =? 92 then Some 92     (* reverse solidus *)
  else if e =? 47 then Some 47     (* solidus *)
  else if e =? 98 then Some 8      (* b: backspace *)
  else if e =? 102 then Some 12    (* f: form feed *)
  else if e =? 110 then Some 10    (* n: line feed *)
  else if e =? 114 then Some 13    (* r: carriage return *)
  else if e =? 116 then Some 9     (* t: tab *)
  else None.

Definition cons_chars (c : N) (r : option (jsstring * jsstring)) : option (jsstring * jsstring) :=
  match r with
  | Some (str, rest) => Some (c :: str, rest)
  | None => None
  end.

(** The characters of a string literal after its opening quote, up to and
    including the closing quote. *)
Fixpoint parse_chars (s : jsstring) : option (jsstring * jsstring) :=
  match s with
  | [] => None
  | c :: r =>
      if c =? 34 then Some ([], r)
      else if c =? 92 then
        match r with
        | [] => None
        | e :: r1 =>
            if e =? 117 then
              match r1 with
              | h1 :: h2 :: h3 :: h4 :: r2 =>
                  match hex4 h1 h2 h3 h4 with
                  | Some u => cons_chars u (parse_chars r2)
                  | None => None
                  end
              | _ => None
              end
            else
              match unescape e with
              | Some u => cons_chars u (parse_chars r1)
              | None => None
              end
        end
      else if c <? 32 then None
      else cons_chars c (parse_chars r)
  end.

Fixpoint span_digits (s : jsstring) : jsstring * jsstring :=
  match s with
  | c :: r =>
      if is_digit c then let '(ds, rest) := span_digits r in (c :: ds, rest)
      else ([], s)
  | [] => ([], [])
  end.

(** The integer part: an optional minus sign, then either a single zero or
    a non-zero digit followed by digits. *)
Definition parse_int_digits (sign s : jsstring) : option (jsstring * jsstring) :=
  match s with
  | d :: r =>
      if d =? 48 then Some (sign ++ [d], r)
      else if is_digit d then
        let '(ds, rest) := span_digits r in Some (sign ++ d :: ds, rest)
      else None
  | [] => None
  end.

Definition parse_int (s : jsstring) : option (jsstring * jsstring) :=
  match s with
  | c :: r => if c =? 45 then parse_int_digits [c] r else parse_int_digits [] s
  | [] => None
  end.

(** The optional fraction: a point and at least one digit. *)
Definition parse_frac (s : jsstring) : option (jsstring * jsstring) :=
  match s with
  | c :: r =>
      if c =? 46 then
        match span_digits r with
        | ([], _) => None
        | (ds, rest) => Some (c :: ds, rest)
        end
      else Some ([], s)
  | [] => Some ([], s)
  end.

(** The optional exponent: e or E, an optional sign and at least one digit. *)
Definition parse_exp_digits (mark s : jsstring) : option (jsstring * jsstring) :=
  match span_digits s with
  | ([], _) => None
  | (ds, rest) => Some (mark ++ ds, rest)
  end.

Definition parse_exp (s : jsstring) : option (jsstring * jsstring) :=
  match s with
  | c :: r =>
      if (c =? 101) || (c =? 69) then
        match r with
        | g :: r' =>
            if (g =? 43) || (g =? 45) then parse_exp_digits [c; g] r'
            else parse_exp_digits [c] r
        | [] => None
        end
      else Some ([], s)
  | [] => Some ([], s)
  end.

Definition parse_number (s : jsstring) : option (jsstring * jsstring) :=
  match parse_int s with
  | Some (i, s1) =>
      match parse_frac s1 with
      | Some (f, s2) =>
          match parse_exp s2 with
          | Some (e, s3) => Some (i ++ f ++ e, s3)
          | None => None
          end
      | None => None
      end
  | None => None
  end.

Fixpoint strip_prefix (p s : jsstring) : option jsstring :=
  match p, s with
  | [], _ => Some s
  | a :: p', b :: s' => if a =? b then strip_prefix p' s' else None
  | _ :: _, [] => None
  end.

Definition parse_literal (s : jsstring) : Parse Json :=
  match strip_prefix (js "true") s with
  | Some rest => POk (JBool true) rest
  | None =>
      match strip_prefix (js "false") s with
      | Some rest => POk (JBool false) rest
      | None =>
          match strip_prefix (js "null") s with
          | Some rest => POk JNull rest
          | None => PSyntax
          end
      end
  end.

(** Recursive descent over the JSON grammar.  [parse_elements] and
    [parse_members] start at the first element or member of a non-empty
    array or object and consume the closing bracket. *)
Fixpoint parse_value (fuel : nat) (s : jsstring) {struct fuel} : Parse Json :=
  match fuel with
  | O => PFuel
  | S fuel' =>
      match skip_ws s with
      | [] => PSyntax
      | c :: r =>
          if c =? 123 then
            match skip_ws r with
            | [] => PSyntax
            | c' :: r' =>
                if c' =? 125 then POk (JObj []) r'
                else
                  match parse_members fuel' (c' :: r') with
                  | POk ms rest => POk (JObj ms) rest
                  | PSyntax => PSyntax
                  | PFuel => PFuel
                  end
            end
          else if c =? 91 then
            match skip_ws r with
            | [] => PSyntax
            | c' :: r' =>
                if c' =? 93 then POk (JArr []) r'
                else
                  match parse_elements fuel' (c' :: r') with
                  | POk vs rest => POk (JArr vs) rest
                  | PSyntax => PSyntax
                  | PFuel => PFuel
                  end
            end
          else if c =? 34 then
            match parse_chars r with
            | Some (str, rest) => POk (JStr str) rest
            | None => PSyntax
            end
          else if (c =? 45) || is_digit c then
            match parse_number (c :: r) with
            | Some (lexeme, rest) => POk (JNum lexeme) rest
            | None => PSyntax
            end
          else parse_literal (c :: r)
      end
  end
with parse_elements (fuel : nat) (s : jsstring) {struct fuel} : Parse (list Json) :=
  match fuel with
  | O => PFuel
  | S fuel' =>
      match parse_value fuel' s with
      | POk v rest =>
          match skip_ws rest with
          | [] => PSyntax
          | c :: r =>
              if c =? 44 then
                match parse_elements fuel' r with
                | POk vs rest' => POk (v :: vs) rest'
                | PSyntax => PSyntax
                | PFuel => PFuel
                end
              else if c =? 93 then POk [v] r
              else PSyntax
          end
      | PSyntax => PSyntax
      | PFuel => PFuel
      end
  end
with parse_members (fuel : nat) (s : jsstring) {struct fuel} : Parse (list (jsstring * Json)) :=
  match fuel with
  | O => PFuel
  | S fuel' =>
      match skip_ws s with
      | [] => PSyntax
      | q :: r0 =>
          if q =? 34 then
            match parse_chars r0 with
            | None => PSyntax
            | Some (key, r1) =>
                match skip_ws r1 with
                | [] => PSyntax
                | colon :: r2 =>
                    if colon =? 58 then
                      match parse_value fuel' r2 with
                      | POk v rest =>
                          match skip_ws rest with
                          | [] => PSyntax
                          | c :: r =>
                              if c =? 44 then
                                match parse_members fuel' r with
                                | POk ms rest' => POk ((key, v) :: ms) rest'
                                | PSyntax => PSyntax
                                | PFuel => PFuel
                                end
                              else if c =? 125 then POk [(key, v)] r
                              else PSyntax
                          end
                      | PSyntax => PSyntax
                      | PFuel => PFuel
                      end
                    else PSyntax
                end
            end
          else PSyntax
      end
  end.

(** Enough fuel for [parse_value] on [s] (see [parse_text_fuel]). *)
Definition parse_fuel (s : jsstring) : nat := (2 * length s + 1)%nat.

(** The grammar of a whole JSON text: one value between whitespace. *)
Definition parse_text (s : jsstring) : option Json :=
  match parse_value (parse_fuel s) s with
  | POk v rest => match skip_ws rest with [] => Some v | _ :: _ => None end
  | PSyntax => None
  | PFuel => None
  end.

(* ===================================================================== *)
(** ** [JSON.stringify] of a session record *)

Definition hex_digit (n : N) : N := if n <? 10 then 48 + n else 87 + n.

Definition unicode_escape (c : N) : jsstring :=
  [ 92; 117;
    hex_digit ((c / 4096) mod 16); hex_digit ((c / 256) mod 16);
    hex_digit ((c / 16) mod 16); hex_digit (c mod 16) ].

Definition is_high_surrogate (c : N) : bool := (55296 <=? c) && (c <=? 56319).
Definition is_low_surrogate (c : N) : bool := (56320 <=? c) && (c <=? 57343).

(** The quoted form of one code unit that is not part of a surrogate pair. *)
Definition quote_unit (c : N) : jsstring :=
  if c =? 8 then [92; 98]
  else if c =? 9 then [92; 116]
  else if c =? 10 then [92; 110]
  else if c =? 12 then [92; 102]
  else if c =? 13 then [92; 114]
  else if c =? 34 then [92; 34]
  else if c =? 92 then [92; 92]
  else if (c <? 32) || is_high_surrogate c || is_low_surrogate c then unicode_escape c
  else [c].

Fixpoint quote_units (s : jsstring) : jsstring :=
  match s with
  | [] => []
  | h :: r =>
      match r with
      | l :: r' =>
          if is_high_surrogate h && is_low_surrogate l
          then h :: l :: quote_units r'
          else quote_unit h ++ quote_units r
      | [] => quote_unit h
      end
  end.

(** [JSON.stringify(s)] for a string [s]. *)
Definition QuoteJSONString (s : jsstring) : jsstring :=
  34 :: quote_units s ++ [34].

(** The object literal [{ username, deviceId }] of [handleLogin]. *)
Definition User (username deviceId : jsstring) : Json :=
  JObj [ (js "username", JStr username); (js "deviceId", JStr deviceId) ].

(** [JSON.stringify(newUser)] for [newUser = { username, deviceId }]. *)
Definition JSON_stringify_User (username deviceId : jsstring) : jsstring :=
  jsq "{'username':" ++ QuoteJSONString username
  ++ jsq ",'deviceId':" ++ QuoteJSONString deviceId ++ js "}".

(* ===================================================================== *)
(** ** [types.ts] *)

Inductive AppStatus := IDLE | GENERATING | COMPLETED | ERROR.

#[global] Instance AppStatus_eq_dec : EqDecision AppStatus.
Proof. solve_decision. Defined.

Inductive RecapLength := short | medium | detailed.

Module MovieInfo.
Record t := mk {
  title : jsstring;
  genre : jsstring;
  director : jsstring;
  keyPlotPoints : jsstring;
  tone : jsstring;
  includeSpoilers : bool;
  length : RecapLength
}.
End MovieInfo.

Definition RecapLength_toString (l : RecapLength) : jsstring :=
  match l with
  | short => js "short"
  | medium => js "medium"
  | detailed => js "detailed"
  end.

(* ===================================================================== *)
(** ** [services/geminiService.ts] *)

(** The [Type.*] schema language, as far as the request uses it. *)
Inductive Schema :=
| STRING
| ARRAY (items : Schema)
| OBJECT (properties : list (jsstring * Schema)) (required : list jsstring).

Definition responseSchema : Schema :=
  OBJECT
    [ (js "tagline", STRING);
      (js "summary", STRING);
      (js "characterAnalysis", STRING);
      (js "keyTakeaways", ARRAY STRING);
      (js "verdict", STRING) ]
    [ js "tagline"; js "summary"; js "characterAnalysis"; js "keyTakeaways"; js "verdict" ].

(** A parsed value conforms to a schema: the types agree, every required
    property is present, and every declared property that is present
    conforms. *)
Fixpoint conforms (sch : Schema) (j : Json) {struct sch} : bool :=
  match sch with
  | STRING => match j with JStr _ => true | _ => false end
  | ARRAY items => match j with JArr vs => forallb (conforms items) vs | _ => false end
  | OBJECT properties required =>
      match j with
      | JObj members =>
          forallb (λ k, bool_decide (is_Some (own_property k members))) required
          && (fix each (ps : list (jsstring * Schema)) : bool :=
                match ps with
                | [] => true
                | (k, sch') :: ps' =>
                    match own_property k members with
                    | Some x => conforms sch' x
                    | None => true
                    end && each ps'
                end) properties
      | _ => false
      end
  end.

Definition nl : jsstring := [10].

(** The template literal [prompt]. *)
Definition prompt (info : MovieInfo.t) : jsstring :=
  nl ++ js "    Write a professional movie recap for the following film:"
  ++ nl ++ js "    Title: " ++ MovieInfo.title info
  ++ nl ++ js "    Genre: " ++ MovieInfo.genre info
  ++ nl ++ js "    Director: " ++ MovieInfo.director info
  ++ nl ++ js "    Key Plot Points: " ++ MovieInfo.keyPlotPoints info
  ++ nl ++ js "    Tone: " ++ MovieInfo.tone info
  ++ nl ++ js "    Include Spoilers: "
  ++ (if MovieInfo.includeSpoilers info then js "Yes" else js "No")
  ++ nl ++ js "    Recap Length: " ++ RecapLength_toString (MovieInfo.length info)
  ++ nl
  ++ nl ++ js "    The recap should be engaging and high-quality."
  ++ nl ++ js "  ".

(** The argument of [ai.models.generateContent]. *)
Record Request := mkRequest {
  model : jsstring;
  contents : jsstring;
  responseMimeType : jsstring;
  requestSchema : Schema
}.

(** What the handler reads of the resolved response: [response.text],
    [None] when it is [undefined]. *)
Record Response := mkResponse { text : option jsstring }.

Definition request_of (info : MovieInfo.t) : Request :=
  {| model := js "gemini-3-flash-preview";
     contents := prompt info;
     responseMimeType := js "application/json";
     requestSchema := responseSchema |}.

Section App.

(** The message the JavaScript engine attaches to the [SyntaxError] that
    [JSON.parse] throws on a given text; it differs between engines. *)
Variable syntaxErrorMessage : jsstring → jsstring.

Definition SyntaxError (s : jsstring) : Thrown :=
  mkThrown (js "SyntaxError") (Some (syntaxErrorMessage s)).

Definition JSON_parse (s : jsstring) : Result Json :=
  match parse_text s with
  | Some v => Returns v
  | None => Throws (SyntaxError s)
  end.

Definition Error (message : jsstring) : Thrown :=
  mkThrown (js "Error") (Some message).

(** [generateMovieRecap]; [ai] is the external model: the settled
    [generateContent] promise for a request, fulfilled with a response or
    rejected. *)
Definition generateMovieRecap (ai : Request → Result Response) (info : MovieInfo.t)
  : Result Json :=
  rbind (ai (request_of info)) (λ response,
    match text response with
    | None => Throws (Error (js "No response from AI"))
    | Some [] => Throws (Error (js "No response from AI"))
    | Some (c :: t) => JSON_parse (c :: t)
    end).

(* =================================================================== *)
(** ** [App.tsx] *)

Record AuthEntry := mkAuthEntry { pass : jsstring; deviceIds : list jsstring }.

Definition AUTHORIZED_USERS (v : Variant) : gmap jsstring AuthEntry :=
  match v with
  | Variant1 =>
      {[ js "admin" := {| pass := js "0000"; deviceIds := [] |};
         js "editor" := {| pass := js "recap2025"; deviceIds := [] |} ]}
  | Variant2 =>
      {[ js "admin" :=
           {| pass := js "0000";
              deviceIds := [ js "TW96aWxsYS81LjAg"; js "REVCVUctREVWSUNFLTI=" ] |};
         js "demo-user" := {| pass := js "moviepass123"; deviceIds := [] |} ]}
  end.

(** Property names every object literal inherits from [Object.prototype]. *)
Definition Object_prototype_keys : list jsstring :=
  [ js "constructor"; js "__proto__"; js "hasOwnProperty"; js "isPrototypeOf";
    js "propertyIsEnumerable"; js "toLocaleString"; js "toString"; js "valueOf";
    js "__defineGetter__"; js "__defineSetter__";
    js "__lookupGetter__"; js "__lookupSetter__" ].

(** The value of [AUTHORIZED_USERS[username]]: an entry of the table, an
    inherited member (truthy, with no [pass] property), or [undefined]. *)
Inductive Config :=
| Entry (c : AuthEntry)
| Inherited
| Undefined.

Definition AUTHORIZED_USERS_get (v : Variant) (username : jsstring) : Config :=
  match AUTHORIZED_USERS v !! username with
  | Some c => Entry c
  | None =>
      if bool_decide (username ∈ Object_prototype_keys) then Inherited else Undefined
  end.

Definition TONES : list jsstring :=
  [ js "Dramatic"; js "Humorous"; js "Analytical"; js "Fast-paced";
    js "Suspenseful"; js "Witty" ].

Record LoginForm := mkLoginForm { username : jsstring; password : jsstring }.

(** The component state ([useState] cells), the browser's [localStorage],
    and the recap requests that are awaited and not yet settled, each with
    the [MovieInfo] it was called with. *)
Record State := mkState {
  user : option Json;
  loginForm : LoginForm;
  authError : option jsstring;
  currentDeviceId : jsstring;
  status : AppStatus;
  error : option jsstring;
  recap : option Json;
  formData : MovieInfo.t;
  localStorage : gmap jsstring jsstring;
  pending : list MovieInfo.t
}.

Definition setUser (x : option Json) (s : State) : State :=
  mkState x (loginForm s) (authError s) (currentDeviceId s) (status s) (error s)
          (recap s) (formData s) (localStorage s) (pending s).
Definition setLoginForm (x : LoginForm) (s : State) : State :=
  mkState (user s) x (authError s) (currentDeviceId s) (status s) (error s)
          (recap s) (formData s) (localStorage s) (pending s).
Definition setAuthError (x : option jsstring) (s : State) : State :=
  mkState (user s) (loginForm s) x (currentDeviceId s) (status s) (error s)
          (recap s) (formData s) (localStorage s) (pending s).
Definition setCurrentDeviceId (x : jsstring) (s : State) : State :=
  mkState (user s) (loginForm s) (authError s) x (status s) (error s)
          (recap s) (formData s) (localStorage s) (pending s).
Definition setStatus (x : AppStatus) (s : State) : State :=
  mkState (user s) (loginForm s) (authError s) (currentDeviceId s) x (error s)
          (recap s) (formData s) (localStorage s) (pending s).
Definition setError (x : option jsstring) (s : State) : State :=
  mkState (user s) (loginForm s) (authError s) (currentDeviceId s) (status s) x
          (recap s) (formData s) (localStorage s) (pending s).
Definition setRecap (x : option Json) (s : State) : State :=
  mkState (user s) (loginForm s) (authError s) (currentDeviceId s) (status s) (error s)
          x (formData s) (localStorage s) (pending s).
Definition setFormData (x : MovieInfo.t) (s : State) : State :=
  mkState (user s) (loginForm s) (authError s) (currentDeviceId s) (status s) (error s)
          (recap s) x (localStorage s) (pending s).
Definition setLocalStorage (x : gmap jsstring jsstring) (s : State) : State :=
  mkState (user s) (loginForm s) (authError s) (currentDeviceId s) (status s) (error s)
          (recap s) (formData s) x (pending s).
Definition setPending (x : list MovieInfo.t) (s : State) : State :=
  mkState (user s) (loginForm s) (authError s) (currentDeviceId s) (status s) (error s)
          (recap s) (formData s) (localStorage s) x.

Definition storage_key : jsstring := js "cinerecap_user".

Definition localStorage_setItem (k x : jsstring) (s : State) : State :=
  setLocalStorage (<[k := x]> (localStorage s)) s.
Definition localStorage_removeItem (k : jsstring) (s : State) : State :=
  setLocalStorage (delete k (localStorage s)) s.

(** The state of the first render, over a given [localStorage]. *)
Definition initialState (storage : gmap jsstring jsstring) : State :=
  {| user := None;
     loginForm := {| username := []; password := [] |};
     authError := None;
     currentDeviceId := [];
     status := IDLE;
     error := None;
     recap := None;
     formData :=
       MovieInfo.mk [] [] [] [] (js "Dramatic") false medium;
     localStorage := storage;
     pending := [] |}.

(** The [useEffect] that runs once after the first render. *)
Definition restoreSession (v : Variant) (env : Env) (s : State) : Result State :=
  let fingerprint := getDeviceFingerprint v env in
  let s := setCurrentDeviceId fingerprint s in
  match localStorage s !! storage_key with
  | None => Returns s
  | Some [] => Returns s
  | Some (c :: t) =>
      rbind (JSON_parse (c :: t)) (λ parsedUser,
        rbind (get_prop parsedUser (js "deviceId")) (λ deviceId,
          if strict_equals_string deviceId fingerprint
          then Returns (setUser (Some parsedUser) s)
          else Returns (localStorage_removeItem storage_key s)))
  end.

Definition invalid_credentials : jsstring := js "Invalid username or password.".

(** The template literal of the device check. *)
Definition device_denied (v : Variant) (deviceId username : jsstring) : jsstring :=
  match v with
  | Variant1 =>
      js "ACCESS DENIED: This device (" ++ deviceId
      ++ jsq ") is not registered for user '" ++ username ++ jsq "'."
  | Variant2 =>
      js "Unauthorized Device. Please provide this ID to the admin to add it to your account: "
      ++ deviceId
  end.

Definition handleLogin (v : Variant) (s : State) : State :=
  let s := setAuthError None s in
  let username := username (loginForm s) in
  let password := password (loginForm s) in
  match AUTHORIZED_USERS_get v username with
  | Undefined => setAuthError (Some invalid_credentials) s
  | Inherited => setAuthError (Some invalid_credentials) s
  | Entry config =>
      if bool_decide (pass config ≠ password)
      then setAuthError (Some invalid_credentials) s
      else if negb (bool_decide (currentDeviceId s ∈ deviceIds config))
      then setAuthError (Some (device_denied v (currentDeviceId s) username)) s
      else
        let s := setUser (Some (User username (currentDeviceId s))) s in
        localStorage_setItem storage_key
          (JSON_stringify_User username (currentDeviceId s)) s
  end.

Definition handleLogout (s : State) : State :=
  let s := localStorage_removeItem storage_key s in
  let s := setUser None s in
  let s := setRecap None s in
  let s := setStatus IDLE s in
  setLoginForm {| username := []; password := [] |} s.

(** [copyDeviceId] writes to the clipboard and raises an alert; it touches
    no state of the component. *)
Definition copyDeviceId (s : State) : State := s.

(** [handleSubmit] up to its [await]: the request is issued and awaited. *)
Definition handleSubmit (s : State) : State :=
  match MovieInfo.title (formData s) with
  | [] => s
  | _ :: _ =>
      let s := setStatus GENERATING s in
      let s := setError None s in
      setPending (pending s ++ [formData s]) s
  end.

(** [err.message]: reading a property of [null] or [undefined] throws a
    [TypeError]. *)
Definition err_message (err : Thrown) : Result (option jsstring) :=
  match err with
  | mkThrown _ message => Returns message
  | Nullish => Throws TypeError
  end.

(** [message || 'Failed to generate recap.']. *)
Definition message_or_default (message : option jsstring) : jsstring :=
  match message with
  | None => js "Failed to generate recap."
  | Some [] => js "Failed to generate recap."
  | Some (c :: m) => c :: m
  end.

(** The [catch] block of [handleSubmit].  [err.message] is evaluated
    before either setter is called, so when it throws no state is set. *)
Definition handleSubmit_catch (err : Thrown) (s : State) : Result State :=
  match err_message err with
  | Returns message =>
      Returns (setStatus ERROR (setError (Some (message_or_default message)) s))
  | Throws e => Throws e
  end.

(** A state cell typed [T | null] holds [None] for JavaScript's [null]. *)
Definition nullable (j : Json) : option Json :=
  match j with
  | JNull => None
  | _ => Some j
  end.

(** [handleSubmit] from its [await] on: the [try] body continues when the
    call made with [info] settles, with the external model behaving as
    [ai].  When the [catch] block itself throws, the promise of the
    handler is rejected and the state is left as it was. *)
Definition handleSubmit_settled (ai : Request → Result Response)
    (info : MovieInfo.t) (s : State) : State :=
  match generateMovieRecap ai info with
  | Returns result => setStatus COMPLETED (setRecap (nullable result) s)
  | Throws err =>
      match handleSubmit_catch err s with
      | Returns s' => s'
      | Throws _ => s
      end
  end.

Definition resetForm (s : State) : State :=
  setStatus IDLE (setRecap None s).

(** UI events: edits of the controlled inputs, clicks and submissions, and
    the settling of the [i]-th awaited request. *)
Inductive Event :=
| EditUsername (x : jsstring)
| EditPassword (x : jsstring)
| Login
| CopyDeviceId
| Logout
| EditTitle (x : jsstring)
| EditGenre (x : jsstring)
| EditDirector (x : jsstring)
| EditKeyPlotPoints (x : jsstring)
| EditTone (x : jsstring)
| EditIncludeSpoilers (x : bool)
| Submit
| Settle (i : nat) (ai : Request → Result Response)
| Reset.

Definition step (v : Variant) (e : Event) (s : State) : State :=
  let f := formData s in
  match e with
  | EditUsername x => setLoginForm {| username := x; password := password (loginForm s) |} s
  | EditPassword x => setLoginForm {| username := username (loginForm s); password := x |} s
  | Login => handleLogin v s
  | CopyDeviceId => copyDeviceId s
  | Logout => handleLogout s
  | EditTitle x =>
      setFormData (MovieInfo.mk x (MovieInfo.genre f) (MovieInfo.director f)
        (MovieInfo.keyPlotPoints f) (MovieInfo.tone f) (MovieInfo.includeSpoilers f)
        (MovieInfo.length f)) s
  | EditGenre x =>
      setFormData (MovieInfo.mk (MovieInfo.title f) x (MovieInfo.director f)
        (MovieInfo.keyPlotPoints f) (MovieInfo.tone f) (MovieInfo.includeSpoilers f)
        (MovieInfo.length f)) s
  | EditDirector x =>
      setFormData (MovieInfo.mk (MovieInfo.title f) (MovieInfo.genre f) x
        (MovieInfo.keyPlotPoints f) (MovieInfo.tone f) (MovieInfo.includeSpoilers f)
        (MovieInfo.length f)) s
  | EditKeyPlotPoints x =>
      setFormData (MovieInfo.mk (MovieInfo.title f) (MovieInfo.genre f) (MovieInfo.director f)
        x (MovieInfo.tone f) (MovieInfo.includeSpoilers f) (MovieInfo.length f)) s
  | EditTone x =>
      setFormData (MovieInfo.mk (MovieInfo.title f) (MovieInfo.genre f) (MovieInfo.director f)
        (MovieInfo.keyPlotPoints f) x (MovieInfo.includeSpoilers f) (MovieInfo.length f)) s
  | EditIncludeSpoilers x =>
      setFormData (MovieInfo.mk (MovieInfo.title f) (MovieInfo.genre f) (MovieInfo.director f)
        (MovieInfo.keyPlotPoints f) (MovieInfo.tone f) x (MovieInfo.length f)) s
  | Submit => handleSubmit s
  | Settle i ai =>
      match pending s !! i with
      | Some info => handleSubmit_settled ai info (setPending (delete i (pending s)) s)
      | None => s
      end
  | Reset => resetForm s
  end.

Fixpoint is_prefix (p s : jsstring) : bool :=
  match p, s with
  | [], _ => true
  | a :: p', b :: s' => (a =? b) && is_prefix p' s'
  | _ :: _, [] => false
  end.

(** [haystack.includes(needle)]. *)
Fixpoint includes (needle haystack : jsstring) : bool :=
  is_prefix needle haystack
  || match haystack with
     | [] => false
     | _ :: r => includes needle r
     end.

(** Which events the rendered page can deliver: the login form is
    rendered while [user] is null and the studio otherwise; the tone is
    selected among [TONES]; the submit button is disabled while
    GENERATING; the reset button belongs to the COMPLETED panel, which
    needs a recap; a request settles only while it is awaited.  (Of a non-null [recap] the panel also requires
    truthiness; the styling and the [required] attributes of the inputs
    are not modelled, so this admits at least the events of the page.) *)
Definition enabled (v : Variant) (s : State) (e : Event) : bool :=
  match e with
  | EditUsername _ | EditPassword _ | Login => bool_decide (user s = None)
  | CopyDeviceId =>
      bool_decide (user s = None)
      && match authError s with
         | None => false
         | Some [] => false
         | Some (c :: m) =>
             match v with
             | Variant1 => true
             | Variant2 => includes (js "Unauthorized Device") (c :: m)
             end
         end
  | Logout | EditTitle _ | EditGenre _ | EditDirector _ | EditKeyPlotPoints _
  | EditIncludeSpoilers _ => bool_decide (is_Some (user s))
  | EditTone x => bool_decide (is_Some (user s)) && bool_decide (x ∈ TONES)
  | Submit => bool_decide (is_Some (user s)) && negb (bool_decide (status s = GENERATING))
  | Settle i _ => bool_decide (is_Some (pending s !! i))
  | Reset =>
      bool_decide (is_Some (user s)) && bool_decide (status s = COMPLETED)
      && bool_decide (is_Some (recap s))
  end.

(** The events of a trace in order; one the page cannot deliver is
    skipped. *)
Fixpoint run (v : Variant) (trace : list Event) (s : State) : State :=
  match trace with
  | [] => s
  | e :: rest => run v rest (if enabled v s e then step v e s else s)
  end.

End App.

(* ===================================================================== *)
(** ** Concrete inputs used in the examples *)

(** The message of one engine, for the examples. *)
Definition engine_message (s : jsstring) : jsstring :=
  js "Unexpected token in JSON".

Definition linux_firefox : Env :=
  {| userAgent := js "Mozilla/5.0 (X11; Linux x86_64; rv:128.0) Gecko/20100101 Firefox/128.0";
     platform := js "Linux x86_64";
     language := js "en-US";
     hardwareConcurrency := Some 8%Z;
     colorDepth := 24;
     width := 1920; height := 1080;
     availWidth := 1920; availHeight := 1053;
     timezoneOffset := (-60)%Z;
     chrome := false |}.

(** The same browser with a user agent outside Latin-1 (code unit 8482). *)
Definition branded_browser : Env :=
  {| userAgent := js "Mozilla/5.0 Brand" ++ [8482];
     platform := platform linux_firefox;
     language := language linux_firefox;
     hardwareConcurrency := hardwareConcurrency linux_firefox;
     colorDepth := colorDepth linux_firefox;
     width := width linux_firefox; height := height linux_firefox;
     availWidth := availWidth linux_firefox; availHeight := availHeight linux_firefox;
     timezoneOffset := timezoneOffset linux_firefox;
     chrome := chrome linux_firefox |}.

Definition inception : MovieInfo.t :=
  MovieInfo.mk (js "Inception") [] [] [] (js "Dramatic") false short.

(** An external model that answers every request with the given text. *)
Definition answers (t : jsstring) : Request → Result Response :=
  λ _, Returns {| text := Some t |}.

Definition login_admin : list Event :=
  [ EditUsername (js "admin"); EditPassword (js "0000"); Login ].

(** The inputs of [getDeviceFingerprint]: the attributes the variant
    reads. *)
Definition same_inputs (v : Variant) (e1 e2 : Env) : Prop :=
  userAgent e1 = userAgent e2
  ∧ width e1 = width e2
  ∧ height e1 = height e2
  ∧ timezoneOffset e1 = timezoneOffset e2
  ∧ match v with
    | Variant1 =>
        platform e1 = platform e2
        ∧ hardwareConcurrency e1 = hardwareConcurrency e2
        ∧ availWidth e1 = availWidth e2
        ∧ availHeight e1 = availHeight e2
    | Variant2 =>
        language e1 = language e2
        ∧ colorDepth e1 = colorDepth e2
        ∧ chrome e1 = chrome e2
    end.

(** [linux_firefox] after a change of every attribute variant 1 does not
    read. *)
Definition linux_firefox_de : Env :=
  {| userAgent := userAgent linux_firefox;
     platform := platform linux_firefox;
     language := js "de-DE";
     hardwareConcurrency := hardwareConcurrency linux_firefox;
     colorDepth := 30;
     width := width linux_firefox; height := height linux_firefox;
     availWidth := availWidth linux_firefox; availHeight := availHeight linux_firefox;
     timezoneOffset := timezoneOffset linux_firefox;
     chrome := true |}.

(** The session a state holds is valid: the logged-in user, if any, has
    the given fingerprint as its [deviceId], which is also the
    [currentDeviceId] of the state. *)
Definition session_valid (fp : jsstring) (s : State) : Prop :=
  currentDeviceId s = fp
  ∧ ∀ u, user s = Some u → get_prop u (js "deviceId") = Returns (Some (JStr fp)).

(** The transitions of the status that the specification lists: submit,
    success, failure and reset. *)
Definition listed_transition (a b : AppStatus) : bool :=
  match a, b with
  | IDLE, GENERATING => true
  | GENERATING, COMPLETED => true
  | GENERATING, ERROR => true
  | COMPLETED, IDLE => true
  | ERROR, IDLE => true
  | _, _ => false
  end.

(** The specification's reading of the status machine: from startup on,
    an event the page delivers either leaves the status alone or takes one
    of the listed transitions. *)
Definition only_listed_transitions (syntaxErrorMessage : jsstring → jsstring) : Prop :=
  ∀ v env storage s0 trace e,
    restoreSession syntaxErrorMessage v env (initialState storage) = Returns s0 →
    enabled v (run syntaxErrorMessage v trace s0) e = true →
    status (step syntaxErrorMessage v e (run syntaxErrorMessage v trace s0))
    = status (run syntaxErrorMessage v trace s0)
    ∨ listed_transition
        (status (run syntaxErrorMessage v trace s0))
        (status (step syntaxErrorMessage v e (run syntaxErrorMessage v trace s0)))
      = true.

Definition inception_recap_text : jsstring :=
  jsq "{ 'tagline': 'Your mind is the scene of the crime.', 'summary': 'A thief enters dreams.', 'characterAnalysis': 'Cobb is driven by guilt.', 'keyTakeaways': ['Dreams within dreams', 'The spinning top'], 'verdict': 'A must-see.' }".

(** The state after startup with nothing stored. *)
Definition fresh_start (v : Variant) (env : Env) : State :=
  setCurrentDeviceId (getDeviceFingerprint v env) (initialState ∅).

(** Log in, submit a title, and have the model answer with text that is
    not JSON. *)
Definition failed_recap : list Event :=
  login_admin ++ [ EditTitle (js "Inception"); Submit; Settle 0 (answers (js "I cannot help")) ].

(** Log in, submit a title, and have the model answer with a recap. *)
Definition completed_recap : list Event :=
  login_admin
  ++ [ EditTitle (js "Inception"); Submit; Settle 0 (answers inception_recap_text) ].

(** Log in, submit a title, and log out while the request is awaited. *)
Definition logout_while_generating : list Event :=
  login_admin ++ [ EditTitle (js "Inception"); Submit; Logout ].

(** The specification's populated recap: the five fields present, the
    tagline a non-empty string and the takeaways a non-empty list. *)
Definition recap_populated (j : Json) : Prop :=
  (∃ c t, get_prop j (js "tagline") = Returns (Some (JStr (c :: t))))
  ∧ (∃ x, get_prop j (js "summary") = Returns (Some x))
  ∧ (∃ x, get_prop j (js "characterAnalysis") = Returns (Some x))
  ∧ (∃ x xs, get_prop j (js "keyTakeaways") = Returns (Some (JArr (x :: xs))))
  ∧ (∃ x, get_prop j (js "verdict") = Returns (Some x)).

(** The interface [GeneratedRecap] of [types.ts], as a property of a parsed
    value: the five fields present, four of them strings and
    [keyTakeaways] a list of strings. *)
Definition is_GeneratedRecap (j : Json) : Prop :=
  ∃ tagline summary characterAnalysis keyTakeaways verdict,
    get_prop j (js "tagline") = Returns (Some (JStr tagline))
    ∧ get_prop j (js "summary") = Returns (Some (JStr summary))
    ∧ get_prop j (js "characterAnalysis") = Returns (Some (JStr characterAnalysis))
    ∧ get_prop j (js "keyTakeaways") = Returns (Some (JArr (List.map JStr keyTakeaways)))
    ∧ get_prop j (js "verdict") = Returns (Some (JStr verdict)).

(** A schema-conformant response with nothing in it. *)
Definition hollow_recap_text : jsstring :=
  jsq "{'tagline':'','summary':'','characterAnalysis':'','keyTakeaways':[],'verdict':''}".

Definition wrong_password : State :=
  setLoginForm {| username := js "admin"; password := js "1234" |}
    (fresh_start Variant2 linux_firefox).

Definition unknown_user : State :=
  setLoginForm {| username := js "constructor"; password := js "0000" |}
    (fresh_start Variant2 linux_firefox).

Definition stored_session : gmap jsstring jsstring :=
  {[ storage_key := JSON_stringify_User (js "admin") (js "TW96aWxsYS81LjAg") ]}.

Definition stale_session : gmap jsstring jsstring :=
  {[ storage_key := JSON_stringify_User (js "admin") (js "REVCVUctREVWSUNFLTI=") ]}.

(** The studio after a login, with a title typed in. *)
Definition titled_form : State :=
  run engine_message Variant2 (login_admin ++ [EditTitle (js "Inception")])
    (fresh_start Variant2 linux_firefox).

Definition inception_recap : Json :=
  JObj
    [ (js "tagline", JStr (js "Your mind is the scene of the crime."));
      (js "summary", JStr (js "A thief enters dreams."));
      (js "characterAnalysis", JStr (js "Cobb is driven by guilt."));
      (js "keyTakeaways", JArr [ JStr (js "Dreams within dreams"); JStr (js "The spinning top") ]);
      (js "verdict", JStr (js "A must-see.")) ].

(** The alphabet of a variant 1 identifier: what the character class
    keeps, in upper case. *)
Definition is_id_char (c : N) : bool := is_upper c || (c =? 48).

(** A browser that is not Firefox on Linux, but whose user agent starts
    with the same twelve code units. *)
Definition mac_safari : Env :=
  {| userAgent := js "Mozilla/5.0 (Macintosh; Intel Mac OS X 10_15_7) AppleWebKit/605.1.15 Safari/605.1.15";
     platform := js "MacIntel";
     language := js "fr-FR";
     hardwareConcurrency := None;
     colorDepth := 30;
     width := 2560; height := 1440;
     availWidth := 2560; availHeight := 1415;
     timezoneOffset := 300%Z;
     chrome := false |}.

(** The login form filled in for the administrator, on a Safari that was
    never registered. *)
Definition mac_admin : State :=
  setLoginForm {| username := js "admin"; password := js "0000" |}
    (fresh_start Variant2 mac_safari).

(** The stored session agrees with the page: a logged-in user is what the
    text stored under the session key parses to. *)
Definition session_stored (s : State) : Prop :=
  ∀ u, user s = Some u →
    ∃ raw, localStorage s !! storage_key = Some raw ∧ parse_text raw = Some u.

(** A storage that other pages of the origin use too. *)
Definition shared_storage : gmap jsstring jsstring :=
  <[ js "theme" := js "dark" ]> stale_session.

(** A storage whose session text is the JSON literal [null]. *)
Definition null_session : gmap jsstring jsstring :=
  {[ storage_key := js "null" ]}.

(** The administrator logged in on Firefox, with a request awaited. *)
Definition generating : State :=
  run engine_message Variant2 (login_admin ++ [EditTitle (js "Inception"); Submit])
    (fresh_start Variant2 linux_firefox).

(** A trace in which nobody logs out. *)
Definition no_logout (trace : list Event) : bool :=
  forallb (λ e, match e with Logout => false | _ => true end) trace.

(** At most one request is awaited, and only while GENERATING. *)
Definition single_flight (s : State) : Prop :=
  (length (pending s) ≤ 1)%nat
  ∧ (pending s ≠ [] → status s = GENERATING).

(** No request of the trace is rejected with [null] or [undefined]. *)
Definition rejections_have_properties (trace : list Event) : Prop :=
  Forall (λ e, match e with
               | Settle _ ai => ∀ request, ai request ≠ Throws Nullish
               | _ => True
               end) trace.

(** Submit, and have the call rejected with [undefined]. *)
Definition rejected_with_undefined : list Event :=
  login_admin
  ++ [ EditTitle (js "Inception"); Submit; Settle 0 (λ _, Throws Nullish) ].

(** What the form can put into a request: a title, a tone of the list,
    and the length the form starts with. *)
Definition from_form (info : MovieInfo.t) : Prop :=
  MovieInfo.title info ≠ []
  ∧ MovieInfo.tone info ∈ TONES
  ∧ MovieInfo.length info = medium.

Definition form_bounds (s : State) : Prop :=
  MovieInfo.tone (formData s) ∈ TONES
  ∧ MovieInfo.length (formData s) = medium
  ∧ Forall from_form (pending s).

(** Submit, log out while the request is awaited, log in and submit
    again. *)
Definition submit_twice : list Event :=
  logout_while_generating ++ login_admin ++ [ Submit ].

(** A call that is rejected with a message, as when the network is
    down. *)
Definition rejects (message : option jsstring) : Request → Result Response :=
  λ _, Throws (mkThrown (js "Error") message).

(** Log in, submit a title, have the call rejected with a message, and
    submit again. *)
Definition rejected_then_retried : list Event :=
  login_admin
  ++ [ EditTitle (js "Inception"); Submit;
       Settle 0 (rejects (Some (js "Failed to fetch"))); Submit ].

(** What startup makes of [shared_storage] on Firefox: the stale session
    is removed. *)
Definition shared_start : State :=
  localStorage_removeItem storage_key
    (setCurrentDeviceId (getDeviceFingerprint Variant2 linux_firefox)
       (initialState shared_storage)).

(** A storage written by hand: a session for a name that no table
    knows, carrying the fingerprint the login page displays. *)
Definition forged_session : gmap jsstring jsstring :=
  {[ storage_key :=
       JSON_stringify_User (js "nobody") (getDeviceFingerprint Variant1 linux_firefox) ]}.

Example parse_examples :
  parse_text (jsq "{ 'a' : [1, 2.5e+3, true, null, 'xA\n'], 'a': {} } ")
  = Some (JObj [ (js "a", JArr [JNum (js "1"); JNum (js "2.5e+3"); JBool true; JNull;
                                 JStr [120; 65; 10]]);
                 (js "a", JObj []) ])
  ∧ parse_text (js "[01]") = None
  ∧ parse_text (js "[1,]") = None
  ∧ parse_text (js "nul") = None
  ∧ parse_text (js " ") = None
  ∧ parse_text (js "-") = None
  ∧ parse_text (js " [[ ], [[]]]") = Some (JArr [JArr []; JArr [JArr []]])
  ∧ parse_text (JSON_stringify_User (js "admin") (js "TW96aWxsYS81LjAg"))
    = Some (User (js "admin") (js "TW96aWxsYS81LjAg")).
Proof. vm_compute. repeat split. Qed.

(* ===================================================================== *)
(** ** The parser consumes its input and never runs out of fuel *)

Lemma skip_ws_length (s : jsstring) : (length (skip_ws s) ≤ length s)%nat.
Proof.
  induction s as [|c r IH]; simpl; [lia|].
  destruct (is_ws c); simpl; lia.
Qed.

Lemma cons_chars_Some c r str rest :
  cons_chars c r = Some (str, rest) → ∃ str', r = Some (str', rest) ∧ str = c :: str'.
Proof.
  destruct r as [[str' rest']|]; simpl; [|discriminate].
  intros [= <- <-]. eauto.
Qed.

Lemma parse_chars_length_aux (n : nat) :
  ∀ s str rest, (length s ≤ n)%nat →
    parse_chars s = Some (str, rest) → (length rest < length s)%nat.
Proof.
  induction n as [|n IH]; intros s str rest Hn.
  { destruct s; [discriminate | simpl in Hn; lia]. }
  destruct s as [|c r]; [discriminate|]. simpl in Hn |- *.
  destruct (c =? 34). { intros [= <- <-]. lia. }
  destruct (c =? 92).
  - destruct r as [|e r1]; [discriminate|].
    destruct (e =? 117).
    + destruct r1 as [|h1 [|h2 [|h3 [|h4 r2]]]]; try discriminate.
      destruct (hex4 h1 h2 h3 h4); [|discriminate].
      intros (str' & H & _)%cons_chars_Some.
      apply IH in H; simpl in *; lia.
    + destruct (unescape e); [|discriminate].
      intros (str' & H & _)%cons_chars_Some.
      apply IH in H; simpl in *; lia.
  - destruct (c <? 32); [discriminate|].
    intros (str' & H & _)%cons_chars_Some.
    apply IH in H; simpl in *; lia.
Qed.

Lemma parse_chars_length s str rest :
  parse_chars s = Some (str, rest) → (length rest < length s)%nat.
Proof. apply (parse_chars_length_aux (length s)). lia. Qed.

Lemma span_digits_length s ds rest :
  span_digits s = (ds, rest) → (length rest ≤ length s)%nat.
Proof.
  revert ds rest. induction s as [|c r IH]; simpl; intros ds rest.
  { intros [= <- <-]. simpl. lia. }
  destruct (is_digit c).
  - destruct (span_digits r) as [ds' rest'] eqn:E. intros [= <- <-].
    specialize (IH _ _ eq_refl). lia.
  - intros [= <- <-]. simpl. lia.
Qed.

Lemma parse_int_digits_length sign s i rest :
  parse_int_digits sign s = Some (i, rest) → (length rest < length s)%nat.
Proof.
  destruct s as [|d r]; [discriminate|]. simpl.
  destruct (d =? 48). { intros [= <- <-]. lia. }
  destruct (is_digit d); [|discriminate].
  destruct (span_digits r) as [ds rest'] eqn:E. intros [= <- <-].
  apply span_digits_length in E. lia.
Qed.

Lemma parse_int_length s i rest :
  parse_int s = Some (i, rest) → (length rest < length s)%nat.
Proof.
  destruct s as [|c r]; [discriminate|]. unfold parse_int.
  destruct (c =? 45); intros H%parse_int_digits_length; simpl in *; lia.
Qed.

Lemma parse_frac_length s f rest :
  parse_frac s = Some (f, rest) → (length rest ≤ length s)%nat.
Proof.
  destruct s as [|c r]; simpl. { intros [= <- <-]. simpl. lia. }
  destruct (c =? 46).
  - destruct (span_digits r) as [[|d ds] rest'] eqn:E; [discriminate|].
    intros [= <- <-]. apply span_digits_length in E. lia.
  - intros [= <- <-]. simpl. lia.
Qed.

Lemma parse_exp_digits_length mark s e rest :
  parse_exp_digits mark s = Some (e, rest) → (length rest ≤ length s)%nat.
Proof.
  unfold parse_exp_digits.
  destruct (span_digits s) as [[|d ds] rest'] eqn:E; [discriminate|].
  intros [= <- <-]. apply span_digits_length in E. lia.
Qed.

Lemma parse_exp_length s e rest :
  parse_exp s = Some (e, rest) → (length rest ≤ length s)%nat.
Proof.
  destruct s as [|c r]; unfold parse_exp. { intros [= <- <-]. simpl. lia. }
  destruct ((c =? 101) || (c =? 69)).
  - destruct r as [|g r']; [discriminate|].
    destruct ((g =? 43) || (g =? 45)); intros H%parse_exp_digits_length; simpl in *; lia.
  - intros [= <- <-]. simpl. lia.
Qed.

Lemma parse_number_length s lexeme rest :
  parse_number s = Some (lexeme, rest) → (length rest < length s)%nat.
Proof.
  unfold parse_number.
  destruct (parse_int s) as [[i s1]|] eqn:Ei; [|discriminate].
  destruct (parse_frac s1) as [[f s2]|] eqn:Ef; [|discriminate].
  destruct (parse_exp s2) as [[e s3]|] eqn:Ee; [|discriminate].
  intros [= <- <-].
  apply parse_int_length in Ei. apply parse_frac_length in Ef.
  apply parse_exp_length in Ee. lia.
Qed.

Lemma strip_prefix_length p s rest :
  strip_prefix p s = Some rest → length s = (length p + length rest)%nat.
Proof.
  revert s. induction p as [|a p IH]; intros s; simpl.
  { intros [= <-]. reflexivity. }
  destruct s as [|b s]; [discriminate|].
  destruct (a =? b); [|discriminate].
  intros H. apply IH in H. simpl. lia.
Qed.

Lemma parse_literal_length s v rest :
  parse_literal s = POk v rest → (length rest < length s)%nat.
Proof.
  unfold parse_literal.
  destruct (strip_prefix (js "true") s) eqn:E1.
  { intros [= <- <-]. apply strip_prefix_length in E1. simpl in E1. lia. }
  destruct (strip_prefix (js "false") s) eqn:E2.
  { intros [= <- <-]. apply strip_prefix_length in E2. simpl in E2. lia. }
  destruct (strip_prefix (js "null") s) eqn:E3; [|discriminate].
  intros [= <- <-]. apply strip_prefix_length in E3. simpl in E3. lia.
Qed.

Lemma parse_literal_fuel s : parse_literal s ≠ PFuel.
Proof. unfold parse_literal. repeat case_match; discriminate. Qed.

Lemma parse_consumes (fuel : nat) (s : jsstring) :
  (∀ v rest, parse_value fuel s = POk v rest → (length rest < length s)%nat)
  ∧ (∀ vs rest, parse_elements fuel s = POk vs rest → (length rest < length s)%nat)
  ∧ (∀ ms rest, parse_members fuel s = POk ms rest → (length rest < length s)%nat).
Proof.
  revert s. induction fuel as [|fuel IH]; intros s.
  { repeat split; discriminate. }
  split; [|split].
  - intros v rest. simpl.
    pose proof (skip_ws_length s) as Hs.
    destruct (skip_ws s) as [|c r]; [discriminate|]. simpl in Hs.
    destruct (c =? 123).
    { pose proof (skip_ws_length r) as Hr.
      destruct (skip_ws r) as [|c' r']; [discriminate|]. simpl in Hr.
      destruct (c' =? 125). { intros [= <- <-]. lia. }
      destruct (parse_members fuel (c' :: r')) eqn:Em; try discriminate.
      intros [= <- <-]. apply IH in Em. simpl in Em. lia. }
    destruct (c =? 91).
    { pose proof (skip_ws_length r) as Hr.
      destruct (skip_ws r) as [|c' r']; [discriminate|]. simpl in Hr.
      destruct (c' =? 93). { intros [= <- <-]. lia. }
      destruct (parse_elements fuel (c' :: r')) eqn:Em; try discriminate.
      intros [= <- <-]. apply IH in Em. simpl in Em. lia. }
    destruct (c =? 34).
    { destruct (parse_chars r) as [[str rest']|] eqn:Ec; [|discriminate].
      intros [= <- <-]. apply parse_chars_length in Ec. lia. }
    destruct ((c =? 45) || is_digit c).
    { destruct (parse_number (c :: r)) as [[lexeme rest']|] eqn:En; [|discriminate].
      intros [= <- <-]. apply parse_number_length in En. simpl in En. lia. }
    intros H%parse_literal_length. simpl in H. lia.
  - intros vs rest. simpl.
    destruct (parse_value fuel s) as [v rest1| |] eqn:Ev; try discriminate.
    apply IH in Ev.
    pose proof (skip_ws_length rest1) as Hr.
    destruct (skip_ws rest1) as [|c r]; [discriminate|]. simpl in Hr.
    destruct (c =? 44).
    { destruct (parse_elements fuel r) eqn:Ee; try discriminate.
      intros [= <- <-]. apply IH in Ee. lia. }
    destruct (c =? 93); [|discriminate].
    intros [= <- <-]. lia.
  - intros ms rest. simpl.
    pose proof (skip_ws_length s) as Hs.
    destruct (skip_ws s) as [|q r0]; [discriminate|]. simpl in Hs.
    destruct (q =? 34); [|discriminate].
    destruct (parse_chars r0) as [[key r1]|] eqn:Ec; [|discriminate].
    apply parse_chars_length in Ec.
    pose proof (skip_ws_length r1) as Hr1.
    destruct (skip_ws r1) as [|colon r2]; [discriminate|]. simpl in Hr1.
    destruct (colon =? 58); [|discriminate].
    destruct (parse_value fuel r2) as [v rest1| |] eqn:Ev; try discriminate.
    apply IH in Ev.
    pose proof (skip_ws_length rest1) as Hr.
    destruct (skip_ws rest1) as [|c r]; [discriminate|]. simpl in Hr.
    destruct (c =? 44).
    { destruct (parse_members fuel r) eqn:Ee; try discriminate.
      intros [= <- <-]. apply IH in Ee. lia. }
    destruct (c =? 125); [|discriminate].
    intros [= <- <-]. lia.
Qed.

Lemma parse_fuel_enough (fuel : nat) (s : jsstring) :
  ((2 * length s + 1 ≤ fuel)%nat → parse_value fuel s ≠ PFuel)
  ∧ ((2 * length s + 2 ≤ fuel)%nat → parse_elements fuel s ≠ PFuel)
  ∧ ((2 * length s + 2 ≤ fuel)%nat → parse_members fuel s ≠ PFuel).
Proof.
  revert s. induction fuel as [|fuel IH]; intros s.
  { repeat split; lia. }
  split; [|split]; intros Hf; simpl.
  - pose proof (skip_ws_length s) as Hs.
    destruct (skip_ws s) as [|c r]; [discriminate|]. simpl in Hs.
    destruct (c =? 123).
    { pose proof (skip_ws_length r) as Hr.
      destruct (skip_ws r) as [|c' r']; [discriminate|]. simpl in Hr.
      destruct (c' =? 125); [discriminate|].
      destruct (parse_members fuel (c' :: r')) eqn:Em; try discriminate.
      apply IH in Em; [done | simpl; lia]. }
    destruct (c =? 91).
    { pose proof (skip_ws_length r) as Hr.
      destruct (skip_ws r) as [|c' r']; [discriminate|]. simpl in Hr.
      destruct (c' =? 93); [discriminate|].
      destruct (parse_elements fuel (c' :: r')) eqn:Em; try discriminate.
      apply IH in Em; [done | simpl; lia]. }
    destruct (c =? 34). { destruct (parse_chars r) as [[??]|]; discriminate. }
    destruct ((c =? 45) || is_digit c).
    { destruct (parse_number (c :: r)) as [[??]|]; discriminate. }
    apply parse_literal_fuel.
  - destruct (parse_value fuel s) as [v rest1| |] eqn:Ev; try discriminate.
    + apply parse_consumes in Ev.
      pose proof (skip_ws_length rest1) as Hr.
      destruct (skip_ws rest1) as [|c r]; [discriminate|]. simpl in Hr.
      destruct (c =? 44).
      { destruct (parse_elements fuel r) eqn:Ee; try discriminate.
        apply IH in Ee; [done | lia]. }
      destruct (c =? 93); discriminate.
    + apply IH in Ev; [done | lia].
  - pose proof (skip_ws_length s) as Hs.
    destruct (skip_ws s) as [|q r0]; [discriminate|]. simpl in Hs.
    destruct (q =? 34); [|discriminate].
    destruct (parse_chars r0) as [[key r1]|] eqn:Ec; [|discriminate].
    apply parse_chars_length in Ec.
    pose proof (skip_ws_length r1) as Hr1.
    destruct (skip_ws r1) as [|colon r2]; [discriminate|]. simpl in Hr1.
    destruct (colon =? 58); [|discriminate].
    destruct (parse_value fuel r2) as [v rest1| |] eqn:Ev; try discriminate.
    + apply parse_consumes in Ev.
      pose proof (skip_ws_length rest1) as Hr.
      destruct (skip_ws rest1) as [|c r]; [discriminate|]. simpl in Hr.
      destruct (c =? 44).
      { destruct (parse_members fuel r) eqn:Ee; try discriminate.
        apply IH in Ee; [done | lia]. }
      destruct (c =? 125); discriminate.
    + apply IH in Ev; [done | lia].
Qed.

(** [parse_text] gives its parser enough fuel: a text is rejected only for
    its syntax. *)
Lemma parse_text_fuel (s : jsstring) : parse_value (parse_fuel s) s ≠ PFuel.
Proof. apply parse_fuel_enough. unfold parse_fuel. lia. Qed.

(* ===================================================================== *)
(** ** The fingerprint generator *)

Lemma getDeviceFingerprint_returns (v : Variant) (env : Env) :
  getDeviceFingerprint_result v env = Returns (getDeviceFingerprint v env).
Proof.
  unfold getDeviceFingerprint, getDeviceFingerprint_result, try_catch.
  destruct (encode_id v (idString v env)); reflexivity.
Qed.

Lemma idString_same_inputs v e1 e2 : same_inputs v e1 e2 → idString v e1 = idString v e2.
Proof.
  unfold same_inputs, idString.
  destruct v; intros (-> & -> & -> & -> & H); destruct H as (-> & -> & H).
  - destruct H as [-> ->]. reflexivity.
  - rewrite H. reflexivity.
Qed.

(** C7. [getDeviceFingerprint] is deterministic: two calls in environments
    that agree on the attributes the variant reads (user agent, screen
    width and height, timezone offset, and platform, hardware concurrency
    and available geometry in variant 1, language, colour depth and the
    [chrome] flag in variant 2) return the same string, whatever else
    differs between the two environments. *)
Theorem getDeviceFingerprint_deterministic (v : Variant) (e1 e2 : Env) :
  same_inputs v e1 e2 →
  getDeviceFingerprint v e1 = getDeviceFingerprint v e2
  ∧ getDeviceFingerprint_result v e1 = getDeviceFingerprint_result v e2.
Proof.
  intros H%idString_same_inputs.
  unfold getDeviceFingerprint, getDeviceFingerprint_result. rewrite H. done.
Qed.

Lemma getDeviceFingerprint_deterministic_witness :
  same_inputs Variant1 linux_firefox linux_firefox_de
  ∧ linux_firefox ≠ linux_firefox_de
  ∧ getDeviceFingerprint Variant1 linux_firefox
    = getDeviceFingerprint Variant1 linux_firefox_de.
Proof.
  assert (H : same_inputs Variant1 linux_firefox linux_firefox_de)
    by (vm_compute; repeat split).
  split; [exact H|]. split; [discriminate|].
  exact (proj1 (getDeviceFingerprint_deterministic Variant1 _ _ H)).
Defined.

(** C8. [getDeviceFingerprint] is total: in every environment it returns a
    string and raises nothing, and when the [btoa] step throws, the string
    returned is the variant's fixed sentinel. *)
Theorem getDeviceFingerprint_total (v : Variant) (env : Env) :
  (∃ fp, getDeviceFingerprint_result v env = Returns fp)
  ∧ (∀ e, btoa (idString v env) = Throws e →
       getDeviceFingerprint_result v env = Returns (sentinel v)).
Proof.
  split.
  - eexists. apply getDeviceFingerprint_returns.
  - intros e He. unfold getDeviceFingerprint_result, encode_id. rewrite He. reflexivity.
Qed.

Lemma getDeviceFingerprint_total_witness :
  btoa (idString Variant1 branded_browser) = Throws InvalidCharacterError
  ∧ getDeviceFingerprint_result Variant1 branded_browser = Returns (js "ERR-DEVICE-ID")
  ∧ btoa (idString Variant2 branded_browser) = Throws InvalidCharacterError
  ∧ getDeviceFingerprint_result Variant2 branded_browser = Returns (js "UNKNOWN-DEVICE").
Proof.
  assert (H1 : btoa (idString Variant1 branded_browser) = Throws InvalidCharacterError)
    by (vm_compute; reflexivity).
  assert (H2 : btoa (idString Variant2 branded_browser) = Throws InvalidCharacterError)
    by (vm_compute; reflexivity).
  split; [exact H1|]. split.
  { exact (proj2 (getDeviceFingerprint_total Variant1 branded_browser) _ H1). }
  split; [exact H2|].
  exact (proj2 (getDeviceFingerprint_total Variant2 branded_browser) _ H2).
Defined.

Example getDeviceFingerprint_linux_firefox :
  getDeviceFingerprint Variant1 linux_firefox = js "MDUZFC0MHXMQ"
  ∧ getDeviceFingerprint Variant2 linux_firefox = js "TW96aWxsYS81LjAg".
Proof. vm_compute. done. Qed.

(** C9. The two variants of the fingerprinting algorithm are inconsistent:
    there is an environment on which variant 1 and variant 2 of
    [getDeviceFingerprint] return different strings. *)
Theorem variants_inconsistent :
  ∃ env, getDeviceFingerprint Variant1 env ≠ getDeviceFingerprint Variant2 env.
Proof. exists linux_firefox. vm_compute. discriminate. Qed.

Lemma b64_encode_long (l : jsstring) :
  (10 ≤ length l)%nat → (16 ≤ length (b64_encode l))%nat.
Proof.
  intros H.
  do 10 (destruct l as [|? l]; [simpl in H; lia|]).
  destruct l as [|? [|? l]]; simpl; lia.
Qed.

Lemma idString_Variant2_long (env : Env) : (10 ≤ length (idString Variant2 env))%nat.
Proof.
  unfold idString, join, boolean_toString. rewrite !length_app.
  destruct (chrome env); simpl; lia.
Qed.

Lemma getDeviceFingerprint_Variant1_short (env : Env) :
  (length (getDeviceFingerprint Variant1 env) ≤ 13)%nat.
Proof.
  unfold getDeviceFingerprint, getDeviceFingerprint_result, encode_id, try_catch, rbind.
  destruct (btoa _) as [b|]; [|simpl; lia].
  unfold toUpperCase, slice_suffix. rewrite length_map, length_drop. lia.
Qed.

Lemma getDeviceFingerprint_Variant2_long (env : Env) :
  (14 ≤ length (getDeviceFingerprint Variant2 env))%nat.
Proof.
  unfold getDeviceFingerprint, getDeviceFingerprint_result, encode_id, try_catch, rbind, btoa.
  destruct (is_latin1 _); [|simpl; lia].
  unfold slice_prefix. rewrite length_take.
  pose proof (b64_encode_long _ (idString_Variant2_long env)). lia.
Qed.

(** X1. Beyond C9: the two variants of [getDeviceFingerprint] agree in no
    environment at all.  Variant 1 returns at most 13 code units and
    variant 2 at least 14. *)
Lemma variants_never_agree (env : Env) :
  getDeviceFingerprint Variant1 env ≠ getDeviceFingerprint Variant2 env.
Proof.
  intros H.
  pose proof (getDeviceFingerprint_Variant1_short env) as H1.
  pose proof (getDeviceFingerprint_Variant2_long env) as H2.
  rewrite H in H1. lia.
Qed.

(* ===================================================================== *)
(** ** The outcomes of a settled request *)

Lemma generateMovieRecap_not_Nullish engine ai info :
  (∀ request, ai request ≠ Throws Nullish) →
  generateMovieRecap engine ai info ≠ Throws Nullish.
Proof.
  intros Hai. unfold generateMovieRecap.
  destruct (ai (request_of info)) as [r|e] eqn:Er; simpl.
  - destruct (text r) as [[|c t]|]; try discriminate.
    unfold JSON_parse. destruct (parse_text (c :: t)); discriminate.
  - intros [= ->]. apply (Hai _ Er).
Qed.

Lemma handleSubmit_settled_cases engine ai info s :
  (∃ result, generateMovieRecap engine ai info = Returns result
     ∧ handleSubmit_settled engine ai info s
       = setStatus COMPLETED (setRecap (nullable result) s))
  ∨ (∃ name message, generateMovieRecap engine ai info = Throws (mkThrown name message)
       ∧ handleSubmit_settled engine ai info s
         = setStatus ERROR (setError (Some (message_or_default message)) s))
  ∨ (generateMovieRecap engine ai info = Throws Nullish
     ∧ handleSubmit_settled engine ai info s = s).
Proof.
  unfold handleSubmit_settled.
  destruct (generateMovieRecap engine ai info) as [result|[name message|]].
  - left. eauto.
  - right. left. eauto.
  - right. right. done.
Qed.

(** Case analysis on the outcome of the settled request of the goal. *)
Ltac settled_cases :=
  match goal with
  | |- context [handleSubmit_settled ?engine ?ai ?info ?s] =>
      destruct (handleSubmit_settled_cases engine ai info s)
        as [(? & _ & ->) | [(? & ? & _ & ->) | [_ ->]]]
  end.

(* ===================================================================== *)
(** ** Login *)

Section Properties.

Variable syntaxErrorMessage : jsstring → jsstring.

Lemma is_prefix_spec (p s : jsstring) : is_prefix p s = true ↔ ∃ t, s = p ++ t.
Proof.
  revert s. induction p as [|a p IH]; intros s; simpl.
  { split; [eauto | reflexivity]. }
  destruct s as [|b s]. { split; [discriminate | intros [t [=]]]. }
  rewrite andb_true_iff, N.eqb_eq, IH. split.
  - intros [-> [t ->]]. eauto.
  - intros [t [= -> ->]]. eauto.
Qed.

(** The computed [includes] decides [contains]. *)
Lemma includes_spec (needle haystack : jsstring) :
  includes needle haystack = true ↔ contains needle haystack.
Proof.
  unfold contains. induction haystack as [|c r IH]; simpl.
  - rewrite orb_false_r, is_prefix_spec. split.
    + intros [t E]. exists [], t. exact E.
    + intros (before & after & E). destruct before; [eauto | discriminate].
  - rewrite orb_true_iff, is_prefix_spec, IH. split.
    + intros [[t E] | (before & after & ->)].
      * exists [], t. exact E.
      * exists (c :: before), after. reflexivity.
    + intros (before & after & E). destruct before as [|b before].
      * left. eauto.
      * right. injection E as -> ->. eauto.
Qed.

Lemma contains_middle (before x after : jsstring) : contains x (before ++ x ++ after).
Proof. exists before, after. reflexivity. Qed.

Lemma device_denied_contains v deviceId username :
  contains deviceId (device_denied v deviceId username).
Proof.
  destruct v; unfold device_denied.
  - apply contains_middle.
  - exists (js "Unauthorized Device. Please provide this ID to the admin to add it to your account: "), [].
    rewrite app_nil_r. reflexivity.
Qed.

Lemma device_denied_distinct v deviceId username :
  device_denied v deviceId username ≠ invalid_credentials.
Proof. destruct v; discriminate. Qed.

Lemma handleLogin_denied v s c :
  AUTHORIZED_USERS v !! username (loginForm s) = Some c →
  pass c = password (loginForm s) →
  currentDeviceId s ∉ deviceIds c →
  handleLogin v s
  = setAuthError (Some (device_denied v (currentDeviceId s) (username (loginForm s)))) s.
Proof.
  intros Hc Hp Hd. unfold handleLogin, AUTHORIZED_USERS_get. simpl.
  rewrite Hc. rewrite bool_decide_eq_false_2 by (intros H; apply H, Hp).
  rewrite bool_decide_eq_false_2 by exact Hd. reflexivity.
Qed.

Lemma restoreSession_currentDeviceId v env s s0 :
  restoreSession syntaxErrorMessage v env s = Returns s0 →
  currentDeviceId s0 = getDeviceFingerprint v env.
Proof.
  unfold restoreSession. simpl.
  destruct (localStorage s !! storage_key) as [[|c t]|]; try (intros [= <-]; reflexivity).
  destruct (JSON_parse syntaxErrorMessage (c :: t)) as [parsedUser|]; [|discriminate]. simpl.
  destruct (get_prop parsedUser (js "deviceId")) as [d|]; [|discriminate]. simpl.
  destruct (strict_equals_string d _); intros [= <-]; reflexivity.
Qed.

Lemma handleLogin_currentDeviceId v s :
  currentDeviceId (handleLogin v s) = currentDeviceId s.
Proof. unfold handleLogin. repeat case_match; reflexivity. Qed.

Lemma handleSubmit_settled_currentDeviceId ai info s :
  currentDeviceId (handleSubmit_settled syntaxErrorMessage ai info s) = currentDeviceId s.
Proof. settled_cases; reflexivity. Qed.

Lemma step_currentDeviceId v e s :
  currentDeviceId (step syntaxErrorMessage v e s) = currentDeviceId s.
Proof.
  destruct e; simpl; try reflexivity.
  - apply handleLogin_currentDeviceId.
  - unfold handleSubmit. case_match; reflexivity.
  - case_match; [|reflexivity]. rewrite handleSubmit_settled_currentDeviceId. reflexivity.
Qed.

Lemma run_currentDeviceId v trace s :
  currentDeviceId (run syntaxErrorMessage v trace s) = currentDeviceId s.
Proof.
  revert s. induction trace as [|e rest IH]; intros s; simpl; [reflexivity|].
  rewrite IH. case_match; [apply step_currentDeviceId | reflexivity].
Qed.

(** C2. After startup, in whatever state a sequence of events has left the
    page: when the username has an entry in the authorization table, the
    password matches it, and the device fingerprint computed at startup is
    not in the entry's [deviceIds], [handleLogin] fails with the
    device-not-authorized message, which contains that fingerprint
    verbatim and is not the invalid-credentials message; the session state
    and [localStorage] are left as they were. *)
Theorem handleLogin_device_not_authorized
    (v : Variant) (env : Env) (storage : gmap jsstring jsstring)
    (s0 : State) (trace : list Event) (c : AuthEntry) :
  restoreSession syntaxErrorMessage v env (initialState storage) = Returns s0 →
  AUTHORIZED_USERS v !! username (loginForm (run syntaxErrorMessage v trace s0)) = Some c →
  pass c = password (loginForm (run syntaxErrorMessage v trace s0)) →
  getDeviceFingerprint v env ∉ deviceIds c →
  ∃ msg,
    authError (handleLogin v (run syntaxErrorMessage v trace s0)) = Some msg
    ∧ contains (getDeviceFingerprint v env) msg
    ∧ msg ≠ invalid_credentials
    ∧ user (handleLogin v (run syntaxErrorMessage v trace s0))
      = user (run syntaxErrorMessage v trace s0)
    ∧ localStorage (handleLogin v (run syntaxErrorMessage v trace s0))
      = localStorage (run syntaxErrorMessage v trace s0).
Proof.
  intros Hs0 Hc Hp Hd.
  set (s := run syntaxErrorMessage v trace s0) in *.
  assert (Hfp : currentDeviceId s = getDeviceFingerprint v env).
  { subst s. rewrite run_currentDeviceId. eapply restoreSession_currentDeviceId, Hs0. }
  rewrite (handleLogin_denied v s c Hc Hp) by (rewrite Hfp; exact Hd).
  eexists. split; [reflexivity|]. rewrite Hfp.
  split; [apply device_denied_contains|].
  split; [apply device_denied_distinct|]. split; reflexivity.
Qed.

(** C3. When the username has no entry in the authorization table, or has
    one whose password differs from the one typed, [handleLogin] ends in
    one and the same state: the state it was called in with [authError]
    set to the invalid-credentials message.  The result does not depend on
    which of the two was wrong, and neither the session nor [localStorage]
    changes. *)
Theorem handleLogin_invalid_credentials (v : Variant) (s : State) :
  AUTHORIZED_USERS v !! username (loginForm s) = None
  ∨ (∃ c, AUTHORIZED_USERS v !! username (loginForm s) = Some c
          ∧ pass c ≠ password (loginForm s)) →
  handleLogin v s = setAuthError (Some invalid_credentials) s
  ∧ authError (handleLogin v s) = Some invalid_credentials
  ∧ user (handleLogin v s) = user s
  ∧ localStorage (handleLogin v s) = localStorage s.
Proof.
  intros H.
  assert (E : handleLogin v s = setAuthError (Some invalid_credentials) s).
  { unfold handleLogin, AUTHORIZED_USERS_get. simpl.
    destruct H as [-> | (c & -> & Hp)].
    - destruct (bool_decide _); reflexivity.
    - rewrite bool_decide_eq_true_2 by exact Hp. reflexivity. }
  rewrite E. repeat split.
Qed.

(* ===================================================================== *)
(** ** Session restore *)

Lemma strict_equals_string_true (x : option Json) (s : jsstring) :
  strict_equals_string x s = true ↔ x = Some (JStr s).
Proof.
  unfold strict_equals_string. split.
  - destruct x as [[]|]; try discriminate. intros ->%bool_decide_eq_true. reflexivity.
  - intros ->. apply bool_decide_eq_true. reflexivity.
Qed.

Lemma restoreSession_parsed v env s raw record deviceId :
  localStorage s !! storage_key = Some raw → raw ≠ [] →
  parse_text raw = Some record →
  get_prop record (js "deviceId") = Returns deviceId →
  restoreSession syntaxErrorMessage v env s
  = Returns
      (if strict_equals_string deviceId (getDeviceFingerprint v env)
       then setUser (Some record) (setCurrentDeviceId (getDeviceFingerprint v env) s)
       else localStorage_removeItem storage_key
              (setCurrentDeviceId (getDeviceFingerprint v env) s)).
Proof.
  intros Hraw Hne Hparse Hprop. unfold restoreSession. simpl. rewrite Hraw.
  destruct raw as [|c t]; [done|].
  unfold JSON_parse. rewrite Hparse. simpl. rewrite Hprop. simpl.
  destruct (strict_equals_string _ _); reflexivity.
Qed.

Lemma restoreSession_user_deviceId v env storage s' u :
  restoreSession syntaxErrorMessage v env (initialState storage) = Returns s' →
  user s' = Some u →
  get_prop u (js "deviceId") = Returns (Some (JStr (getDeviceFingerprint v env))).
Proof.
  unfold restoreSession. simpl.
  destruct (storage !! storage_key) as [[|c t]|]; try (intros [= <-]; discriminate).
  destruct (JSON_parse syntaxErrorMessage (c :: t)) as [parsedUser|]; [|discriminate]. simpl.
  destruct (get_prop parsedUser (js "deviceId")) as [d|] eqn:Hprop; [|discriminate]. simpl.
  destruct (strict_equals_string d _) eqn:Hd; intros [= <-]; [|discriminate].
  simpl. intros [= <-]. apply strict_equals_string_true in Hd. rewrite Hprop, Hd.
  reflexivity.
Qed.

(** A stored text that is not JSON is not a session record: the startup
    effect does not catch the [SyntaxError] of [JSON.parse]. *)
Lemma restoreSession_corrupt v env storage c t :
  storage !! storage_key = Some (c :: t) →
  parse_text (c :: t) = None →
  restoreSession syntaxErrorMessage v env (initialState storage)
  = Throws (SyntaxError syntaxErrorMessage (c :: t)).
Proof.
  intros Hraw Hparse. unfold restoreSession. simpl. rewrite Hraw.
  unfold JSON_parse. rewrite Hparse. reflexivity.
Qed.

(** C1. On startup, over any [localStorage]: when a session record is
    stored (a non-empty text that parses to a value that has properties)
    and its [deviceId] differs from the freshly computed fingerprint, the
    record is deleted from storage and no user is logged in; when it
    equals the fingerprint, the record becomes the logged-in user and
    stays in storage.  Consequently, whenever the restore leaves a user
    logged in, that user's [deviceId] is the current fingerprint. *)
Theorem restoreSession_checks_fingerprint
    (v : Variant) (env : Env) (storage : gmap jsstring jsstring) :
  (∀ raw record deviceId,
     storage !! storage_key = Some raw → raw ≠ [] →
     parse_text raw = Some record →
     get_prop record (js "deviceId") = Returns deviceId →
     ∃ s', restoreSession syntaxErrorMessage v env (initialState storage) = Returns s'
       ∧ (deviceId ≠ Some (JStr (getDeviceFingerprint v env)) →
            user s' = None
            ∧ localStorage s' !! storage_key = None
            ∧ localStorage s' = delete storage_key storage)
       ∧ (deviceId = Some (JStr (getDeviceFingerprint v env)) →
            user s' = Some record ∧ localStorage s' = storage))
  ∧ (∀ s' u,
       restoreSession syntaxErrorMessage v env (initialState storage) = Returns s' →
       user s' = Some u →
       get_prop u (js "deviceId") = Returns (Some (JStr (getDeviceFingerprint v env)))).
Proof.
  split.
  - intros raw record deviceId Hraw Hne Hparse Hprop.
    rewrite (restoreSession_parsed v env _ raw record deviceId) by done.
    eexists. split; [reflexivity|]. split.
    + intros Hd. rewrite <- strict_equals_string_true in Hd.
      apply not_true_is_false in Hd. rewrite Hd. simpl.
      split; [reflexivity|]. split; [apply lookup_delete_eq | reflexivity].
    + intros Hd%strict_equals_string_true. rewrite Hd. split; reflexivity.
  - intros s' u. apply restoreSession_user_deviceId.
Qed.

Lemma User_deviceId (u d : jsstring) :
  get_prop (User u d) (js "deviceId") = Returns (Some (JStr d)).
Proof. reflexivity. Qed.

Lemma handleLogin_session_valid v fp s :
  session_valid fp s → session_valid fp (handleLogin v s).
Proof.
  intros [Hfp Hu]. split; [rewrite handleLogin_currentDeviceId; exact Hfp|].
  unfold handleLogin. repeat case_match; simpl; try exact Hu.
  intros u [= <-]. rewrite Hfp. apply User_deviceId.
Qed.

Lemma step_session_valid v fp e s :
  session_valid fp s → session_valid fp (step syntaxErrorMessage v e s).
Proof.
  intros H. destruct e; simpl; try exact H.
  - apply handleLogin_session_valid, H.
  - destruct H as [Hfp _]. split; [exact Hfp | discriminate].
  - unfold handleSubmit. case_match; exact H.
  - case_match; [|exact H]. settled_cases; exact H.
Qed.

(** X8. The invariant of the data model, over every run of the page:
    after startup, whatever events follow, a logged-in user carries the
    fingerprint computed at startup, which stays the device id of the
    page. *)
Lemma session_invariant v env storage s0 trace :
  restoreSession syntaxErrorMessage v env (initialState storage) = Returns s0 →
  session_valid (getDeviceFingerprint v env) (run syntaxErrorMessage v trace s0).
Proof.
  intros Hs0.
  assert (H0 : session_valid (getDeviceFingerprint v env) s0).
  { split; [eapply restoreSession_currentDeviceId, Hs0|].
    intros u. apply (restoreSession_user_deviceId v env storage s0 u Hs0). }
  clear Hs0. revert s0 H0.
  induction trace as [|e rest IH]; intros s H; simpl; [exact H|].
  apply IH. case_match; [apply step_session_valid, H | exact H].
Qed.

End Properties.

(* ===================================================================== *)
(** ** The empty-title guard *)

(** C10. Submitting the recap form with an empty title is a no-op:
    [handleSubmit] returns the state it was called in, so the status, the
    recap and the error are unchanged and no request is issued. *)
Theorem handleSubmit_empty_title (s : State) :
  MovieInfo.title (formData s) = [] →
  handleSubmit s = s
  ∧ status (handleSubmit s) = status s
  ∧ recap (handleSubmit s) = recap s
  ∧ error (handleSubmit s) = error s
  ∧ pending (handleSubmit s) = pending s.
Proof.
  intros H. unfold handleSubmit. rewrite H. repeat split.
Qed.

(* ===================================================================== *)
(** ** Recap requests *)

Section Requests.

Variable syntaxErrorMessage : jsstring → jsstring.

Lemma message_or_default_nonempty (message : option jsstring) :
  message_or_default message ≠ [].
Proof. unfold message_or_default. repeat case_match; discriminate. Qed.

Lemma generateMovieRecap_throws ai info r :
  ai (request_of info) = Returns r →
  text r = None ∨ text r = Some [] ∨ (∃ t, text r = Some t ∧ parse_text t = None) →
  ∃ name message,
    generateMovieRecap syntaxErrorMessage ai info = Throws (mkThrown name message).
Proof.
  intros Hr H. unfold generateMovieRecap. rewrite Hr. simpl.
  destruct H as [-> | [-> | (t & -> & Hp)]]; [unfold Error; eauto | unfold Error; eauto |].
  destruct t as [|c t]; [unfold Error; eauto|].
  unfold JSON_parse. rewrite Hp. unfold SyntaxError. eauto.
Qed.

Lemma delete_last_pending (l : list MovieInfo.t) (x : MovieInfo.t) :
  delete (length l) (l ++ [x]) = l.
Proof. induction l as [|y l IH]; simpl; [reflexivity | by rewrite IH]. Qed.

(** C4. [generateMovieRecap] fails, the error reaching its caller,
    whenever the response text is missing, empty or not parseable as JSON.
    Submitting the form and having the request settled with such a
    response takes the status to GENERATING and then to ERROR, with an
    error message stored, the recap left as it was, and no request
    awaited any more than before the submit: nothing is retried. *)
Theorem generateMovieRecap_failure
    (ai : Request → Result Response) (info : MovieInfo.t) (r : Response) :
  ai (request_of info) = Returns r →
  text r = None ∨ text r = Some [] ∨ (∃ t, text r = Some t ∧ parse_text t = None) →
  (∃ e, generateMovieRecap syntaxErrorMessage ai info = Throws e)
  ∧ ∀ v s,
      formData s = info → MovieInfo.title info ≠ [] →
      status (step syntaxErrorMessage v Submit s) = GENERATING
      ∧ pending (step syntaxErrorMessage v Submit s) = pending s ++ [info]
      ∧ status (step syntaxErrorMessage v (Settle (length (pending s)) ai)
                  (step syntaxErrorMessage v Submit s)) = ERROR
      ∧ recap (step syntaxErrorMessage v (Settle (length (pending s)) ai)
                 (step syntaxErrorMessage v Submit s)) = recap s
      ∧ pending (step syntaxErrorMessage v (Settle (length (pending s)) ai)
                   (step syntaxErrorMessage v Submit s)) = pending s
      ∧ ∃ m, error (step syntaxErrorMessage v (Settle (length (pending s)) ai)
                      (step syntaxErrorMessage v Submit s)) = Some m
             ∧ m ≠ [].
Proof.
  intros Hr H. destruct (generateMovieRecap_throws ai info r Hr H) as (name & message & He).
  split; [eauto|]. intros v s Hf Ht.
  assert (E1 : step syntaxErrorMessage v Submit s
               = setPending (pending s ++ [info])
                   (setError None (setStatus GENERATING s))).
  { subst info. simpl. unfold handleSubmit.
    destruct (MovieInfo.title (formData s)); [done | reflexivity]. }
  rewrite E1. split; [reflexivity|]. split; [reflexivity|].
  cbn [step pending setPending]. rewrite list_lookup_middle by reflexivity.
  unfold handleSubmit_settled. rewrite He. rewrite delete_last_pending.
  repeat split. eexists. split; [reflexivity | apply message_or_default_nonempty].
Qed.

Lemma conforms_strings (vs : list Json) :
  forallb (conforms STRING) vs = true → ∃ l, vs = List.map JStr l.
Proof.
  induction vs as [|x vs IH]; simpl. { exists []. reflexivity. }
  intros [Hx Hvs]%andb_true_iff. destruct (IH Hvs) as [l ->].
  destruct x; try discriminate. exists (s :: l). reflexivity.
Qed.

Lemma string_property (o : option Json) :
  is_Some o →
  match o with
  | Some x => conforms STRING x
  | None => true
  end = true →
  ∃ s, o = Some (JStr s).
Proof.
  intros [x ->]. destruct x; try discriminate. eauto.
Qed.

Lemma strings_property (o : option Json) :
  is_Some o →
  match o with
  | Some x => conforms (ARRAY STRING) x
  | None => true
  end = true →
  ∃ l, o = Some (JArr (List.map JStr l)).
Proof.
  intros [x ->]. destruct x; try discriminate. simpl.
  intros [l ->]%conforms_strings. eauto.
Qed.

Lemma conforms_responseSchema (j : Json) :
  conforms responseSchema j = true → is_GeneratedRecap j ∧ nullable j = Some j.
Proof.
  destruct j as [| | | | |ms]; try discriminate.
  unfold responseSchema. cbn [conforms forallb].
  intros [Hreq Hprops]%andb_true_iff.
  apply andb_true_iff in Hreq as [R1%bool_decide_eq_true Hreq].
  apply andb_true_iff in Hreq as [R2%bool_decide_eq_true Hreq].
  apply andb_true_iff in Hreq as [R3%bool_decide_eq_true Hreq].
  apply andb_true_iff in Hreq as [R4%bool_decide_eq_true Hreq].
  apply andb_true_iff in Hreq as [R5%bool_decide_eq_true _].
  apply andb_true_iff in Hprops as [P1 Hprops].
  apply andb_true_iff in Hprops as [P2 Hprops].
  apply andb_true_iff in Hprops as [P3 Hprops].
  apply andb_true_iff in Hprops as [P4 Hprops].
  apply andb_true_iff in Hprops as [P5 _].
  destruct (string_property _ R1 P1) as [tagline E1].
  destruct (string_property _ R2 P2) as [summary E2].
  destruct (string_property _ R3 P3) as [characterAnalysis E3].
  destruct (strings_property _ R4 P4) as [keyTakeaways E4].
  destruct (string_property _ R5 P5) as [verdict E5].
  split; [|reflexivity].
  exists tagline, summary, characterAnalysis, keyTakeaways, verdict.
  unfold get_prop. rewrite E1, E2, E3, E4, E5. repeat split.
Qed.

(** C6, as the code has it.  When the external call returns text that
    parses to a value conforming to the response schema, a recap request
    (for "Inception", "Dramatic", no spoilers, "short", as for any other
    [MovieInfo]) yields exactly the parsed value: its five fields are
    present, [tagline], [summary], [characterAnalysis] and [verdict]
    strings and [keyTakeaways] a list of strings, and the submit handler
    stores it and reaches COMPLETED.  Nothing is checked or filled in: the
    tagline and the list are as empty or non-empty as the response has
    them. *)
Theorem generateMovieRecap_conformant
    (ai : Request → Result Response) (info : MovieInfo.t)
    (r : Response) (t : jsstring) (j : Json) :
  ai (request_of info) = Returns r →
  text r = Some t →
  parse_text t = Some j →
  conforms responseSchema j = true →
  generateMovieRecap syntaxErrorMessage ai info = Returns j
  ∧ is_GeneratedRecap j
  ∧ ∀ s, status (handleSubmit_settled syntaxErrorMessage ai info s) = COMPLETED
         ∧ recap (handleSubmit_settled syntaxErrorMessage ai info s) = Some j.
Proof.
  intros Hr Ht Hp Hc.
  assert (E : generateMovieRecap syntaxErrorMessage ai info = Returns j).
  { unfold generateMovieRecap. rewrite Hr. simpl. rewrite Ht.
    destruct t as [|c t]; [discriminate Hp|].
    unfold JSON_parse. rewrite Hp. reflexivity. }
  destruct (conforms_responseSchema j Hc) as [Hshape Hnull].
  split; [exact E|]. split; [exact Hshape|].
  intros s. unfold handleSubmit_settled. rewrite E. simpl. rewrite Hnull. done.
Qed.

End Requests.

(* ===================================================================== *)
(** ** The status machine *)

Section StatusMachine.

Variable syntaxErrorMessage : jsstring → jsstring.

Lemma handleLogin_status v s : status (handleLogin v s) = status s.
Proof. unfold handleLogin. repeat case_match; reflexivity. Qed.

(** C5, as the code has it.  The status is one of IDLE, GENERATING,
    COMPLETED and ERROR, and an event the page can deliver changes it as
    follows and in no other way.  A submit arrives only while the status
    is not GENERATING; with a non-empty title it sets GENERATING from
    whatever status it arrives in (IDLE, and ERROR on a retry), with an
    empty title it changes nothing.  The settling of an awaited request
    sets COMPLETED when [generateMovieRecap] returns, and ERROR when it
    throws a value that is neither [null] nor [undefined]; when the value
    thrown is [null] or [undefined] the [catch] block itself throws at
    [err.message] and the status stays as it was.  Reset arrives only in
    COMPLETED and sets IDLE; logout sets IDLE.  Every other event (login,
    copying the device id, edits of the inputs) leaves the status as it
    is. *)
Theorem status_transitions (v : Variant) (s : State) (e : Event) :
  enabled v s e = true →
  (∀ a : AppStatus, a = IDLE ∨ a = GENERATING ∨ a = COMPLETED ∨ a = ERROR)
  ∧ match e with
    | Submit =>
        status s ≠ GENERATING
        ∧ status (step syntaxErrorMessage v e s)
          = match MovieInfo.title (formData s) with
            | [] => status s
            | _ :: _ => GENERATING
            end
    | Settle i ai =>
        ∃ info, pending s !! i = Some info
          ∧ status (step syntaxErrorMessage v e s)
            = match generateMovieRecap syntaxErrorMessage ai info with
              | Returns _ => COMPLETED
              | Throws (mkThrown _ _) => ERROR
              | Throws Nullish => status s
              end
    | Reset => status s = COMPLETED ∧ status (step syntaxErrorMessage v e s) = IDLE
    | Logout => status (step syntaxErrorMessage v e s) = IDLE
    | _ => status (step syntaxErrorMessage v e s) = status s
    end.
Proof.
  intros He. split. { intros []; auto. }
  destruct e; simpl in *; try reflexivity.
  - apply handleLogin_status.
  - apply andb_true_iff in He as [_ Hg%negb_true_iff%bool_decide_eq_false].
    split; [exact Hg|]. unfold handleSubmit.
    destruct (MovieInfo.title (formData s)); reflexivity.
  - apply bool_decide_eq_true in He as [info Hi]. exists info. split; [exact Hi|].
    rewrite Hi. unfold handleSubmit_settled.
    destruct (generateMovieRecap _ _ _) as [result|[name message|]]; reflexivity.
  - apply andb_true_iff in He as [He _]. apply andb_true_iff in He as [_ Hc].
    apply bool_decide_eq_true in Hc. split; [exact Hc | reflexivity].
Qed.

End StatusMachine.

(** The transitions the specification lists do occur: submit from IDLE,
    success and failure from GENERATING, reset from COMPLETED; from ERROR
    it is the logout that leads back to IDLE, no reset being offered
    there. *)
Example listed_transitions_taken :
  let start := fresh_start Variant2 linux_firefox in
  let titled := run engine_message Variant2 (login_admin ++ [EditTitle (js "Inception")]) start in
  let completed := run engine_message Variant2 completed_recap start in
  let failed := run engine_message Variant2 failed_recap start in
  (status titled = IDLE ∧ enabled Variant2 titled Submit = true
   ∧ status (step engine_message Variant2 Submit titled) = GENERATING)
  ∧ (status completed = COMPLETED ∧ status failed = ERROR)
  ∧ (enabled Variant2 completed Reset = true
     ∧ status (step engine_message Variant2 Reset completed) = IDLE)
  ∧ (enabled Variant2 failed Reset = false
     ∧ enabled Variant2 failed Logout = true
     ∧ status (step engine_message Variant2 Logout failed) = IDLE).
Proof. vm_compute. repeat split. Qed.

Example prompt_inception :
  prompt inception
  = nl ++ js "    Write a professional movie recap for the following film:"
    ++ nl ++ js "    Title: Inception"
    ++ nl ++ js "    Genre: "
    ++ nl ++ js "    Director: "
    ++ nl ++ js "    Key Plot Points: "
    ++ nl ++ js "    Tone: Dramatic"
    ++ nl ++ js "    Include Spoilers: No"
    ++ nl ++ js "    Recap Length: short"
    ++ nl
    ++ nl ++ js "    The recap should be engaging and high-quality."
    ++ nl ++ js "  ".
Proof. reflexivity. Qed.

(* ===================================================================== *)
(** ** A stored session reads back as it was written *)

Lemma hex_value_hex_digit (d : N) : d < 16 → hex_value (hex_digit d) = Some d.
Proof.
  intros H. unfold hex_value, hex_digit, is_digit.
  destruct (N.ltb_spec d 10).
  - rewrite (proj2 (N.leb_le 48 (48 + d))) by lia.
    rewrite (proj2 (N.leb_le (48 + d) 57)) by lia.
    simpl. f_equal. lia.
  - rewrite (proj2 (N.leb_gt (87 + d) 57)) by lia. rewrite andb_false_r.
    rewrite (proj2 (N.leb_le 97 (87 + d))) by lia.
    rewrite (proj2 (N.leb_le (87 + d) 102)) by lia.
    simpl. f_equal. lia.
Qed.

Lemma hex4_unicode_digits (c : N) :
  c < 65536 →
  hex4 (hex_digit ((c / 4096) mod 16)) (hex_digit ((c / 256) mod 16))
       (hex_digit ((c / 16) mod 16)) (hex_digit (c mod 16)) = Some c.
Proof.
  intros H. unfold hex4.
  rewrite !hex_value_hex_digit by (apply N.mod_lt; discriminate).
  f_equal.
  replace (c / 4096) with (c / 16 / 16 / 16) by (rewrite !N.Div0.div_div; reflexivity).
  replace (c / 256) with (c / 16 / 16) by (rewrite N.Div0.div_div; reflexivity).
  assert (H1 : c / 16 < 4096) by (apply N.Div0.div_lt_upper_bound; exact H).
  assert (H2 : c / 16 / 16 < 256) by (apply N.Div0.div_lt_upper_bound; exact H1).
  assert (H3 : c / 16 / 16 / 16 < 16) by (apply N.Div0.div_lt_upper_bound; exact H2).
  rewrite (N.mod_small _ _ H3).
  pose proof (N.div_mod c 16 ltac:(discriminate)) as E0.
  pose proof (N.div_mod (c / 16) 16 ltac:(discriminate)) as E1.
  pose proof (N.div_mod (c / 16 / 16) 16 ltac:(discriminate)) as E2.
  lia.
Qed.

Lemma parse_chars_escape_u (a b c d : N) (tail : jsstring) :
  parse_chars (92 :: 117 :: a :: b :: c :: d :: tail)
  = match hex4 a b c d with
    | Some u => cons_chars u (parse_chars tail)
    | None => None
    end.
Proof. reflexivity. Qed.

Lemma parse_chars_plain (c : N) (tail : jsstring) :
  c ≠ 34 → c ≠ 92 → 32 ≤ c →
  parse_chars (c :: tail) = cons_chars c (parse_chars tail).
Proof.
  intros H1 H2 H3. simpl.
  rewrite (proj2 (N.eqb_neq c 34) H1), (proj2 (N.eqb_neq c 92) H2).
  rewrite (proj2 (N.ltb_ge c 32) H3). reflexivity.
Qed.

Lemma parse_chars_quote_unit (h : N) (tail : jsstring) :
  parse_chars (quote_unit h ++ tail) = cons_chars h (parse_chars tail).
Proof.
  unfold quote_unit.
  destruct (N.eqb_spec h 8) as [->|?]; [reflexivity|].
  destruct (N.eqb_spec h 9) as [->|?]; [reflexivity|].
  destruct (N.eqb_spec h 10) as [->|?]; [reflexivity|].
  destruct (N.eqb_spec h 12) as [->|?]; [reflexivity|].
  destruct (N.eqb_spec h 13) as [->|?]; [reflexivity|].
  destruct (N.eqb_spec h 34) as [->|?]; [reflexivity|].
  destruct (N.eqb_spec h 92) as [->|?]; [reflexivity|].
  destruct ((h <? 32) || is_high_surrogate h || is_low_surrogate h) eqn:E.
  - unfold unicode_escape. cbn [app]. rewrite parse_chars_escape_u.
    rewrite hex4_unicode_digits; [reflexivity|].
    unfold is_high_surrogate, is_low_surrogate in E.
    repeat (apply orb_true_iff in E as [E|E]).
    + apply N.ltb_lt in E. lia.
    + apply andb_true_iff in E as [_ E%N.leb_le]. lia.
    + apply andb_true_iff in E as [_ E%N.leb_le]. lia.
  - apply orb_false_iff in E as [E _]. apply orb_false_iff in E as [E%N.ltb_ge _].
    cbn [app]. apply parse_chars_plain; assumption.
Qed.

Lemma quote_units_pair (h l : N) (r : jsstring) :
  quote_units (h :: l :: r)
  = if is_high_surrogate h && is_low_surrogate l
    then h :: l :: quote_units r
    else quote_unit h ++ quote_units (l :: r).
Proof. reflexivity. Qed.

Lemma parse_chars_surrogate (c : N) (tail : jsstring) :
  is_high_surrogate c || is_low_surrogate c = true →
  parse_chars (c :: tail) = cons_chars c (parse_chars tail).
Proof.
  unfold is_high_surrogate, is_low_surrogate. intros E.
  assert (55296 ≤ c).
  { apply orb_true_iff in E as [E|E]; apply andb_true_iff in E as [E%N.leb_le _]; lia. }
  apply parse_chars_plain; lia.
Qed.

Lemma parse_chars_quote_units_aux (n : nat) :
  ∀ s rest, (length s ≤ n)%nat →
    parse_chars (quote_units s ++ 34 :: rest) = Some (s, rest).
Proof.
  induction n as [|n IH]; intros s rest Hn.
  { destruct s; [reflexivity | simpl in Hn; lia]. }
  destruct s as [|h [|l r]]; [reflexivity | |].
  - cbn [quote_units]. rewrite parse_chars_quote_unit. reflexivity.
  - rewrite quote_units_pair.
    destruct (is_high_surrogate h && is_low_surrogate l) eqn:E.
    + apply andb_true_iff in E as [Eh El]. cbn [app].
      rewrite parse_chars_surrogate by (rewrite Eh; reflexivity).
      rewrite parse_chars_surrogate by (rewrite El; apply orb_true_r).
      rewrite IH by (simpl in *; lia). reflexivity.
    + rewrite <- app_assoc, parse_chars_quote_unit.
      rewrite IH by (simpl in *; lia). reflexivity.
Qed.

(** Reading a quoted string back gives the string, whatever its code
    units. *)
Lemma parse_chars_quote_units (s rest : jsstring) :
  parse_chars (quote_units s ++ 34 :: rest) = Some (s, rest).
Proof. apply (parse_chars_quote_units_aux (length s)). lia. Qed.

Lemma JSON_stringify_User_text (u d : jsstring) :
  JSON_stringify_User u d
  = jsq "{'username':'" ++ quote_units u
    ++ 34 :: jsq ",'deviceId':'" ++ quote_units d ++ 34 :: js "}".
Proof.
  unfold JSON_stringify_User, QuoteJSONString. simpl.
  rewrite <- !app_assoc. reflexivity.
Qed.

Lemma parse_value_stringify_User (fuel : nat) (u d : jsstring) :
  (4 ≤ fuel)%nat →
  parse_value fuel (JSON_stringify_User u d) = POk (User u d) [].
Proof.
  intros H. do 4 (destruct fuel as [|fuel]; [lia|]). clear H.
  rewrite JSON_stringify_User_text. simpl.
  rewrite parse_chars_quote_units. simpl.
  rewrite parse_chars_quote_units. reflexivity.
Qed.

Lemma parse_text_stringify_User (u d : jsstring) :
  parse_text (JSON_stringify_User u d) = Some (User u d).
Proof.
  unfold parse_text.
  rewrite parse_value_stringify_User; [reflexivity|].
  unfold parse_fuel. rewrite JSON_stringify_User_text. simpl. lia.
Qed.

Section Reload.

Variable syntaxErrorMessage : jsstring → jsstring.

Lemma handleLogin_success (v : Variant) (s : State) (u : Json) :
  user s = None → user (handleLogin v s) = Some u →
  u = User (username (loginForm s)) (currentDeviceId s)
  ∧ localStorage (handleLogin v s)
    = <[storage_key := JSON_stringify_User (username (loginForm s)) (currentDeviceId s)]>
        (localStorage s)
  ∧ ∃ c, AUTHORIZED_USERS v !! username (loginForm s) = Some c
         ∧ pass c = password (loginForm s)
         ∧ currentDeviceId s ∈ deviceIds c.
Proof.
  intros Hnone. unfold handleLogin, AUTHORIZED_USERS_get. simpl.
  destruct (AUTHORIZED_USERS v !! username (loginForm s)) as [c|] eqn:Hc.
  - destruct (bool_decide (pass c ≠ password (loginForm s))) eqn:Hp.
    { simpl. rewrite Hnone. discriminate. }
    destruct (bool_decide (currentDeviceId s ∈ deviceIds c)) eqn:Hd; simpl.
    + intros [= <-]. split; [reflexivity|]. split; [reflexivity|].
      exists c. split; [reflexivity|].
      apply bool_decide_eq_false in Hp. apply bool_decide_eq_true in Hd.
      split; [|exact Hd]. destruct (decide (pass c = password (loginForm s))); [done|].
      exfalso. apply Hp. assumption.
    + rewrite Hnone. discriminate.
  - destruct (bool_decide _); simpl; rewrite Hnone; discriminate.
Qed.

(** X7. A login that succeeds on this device survives a reload: the
    startup effect, run over the storage the login left, restores the very
    user the login set. *)
Theorem login_survives_reload (v : Variant) (env : Env) (s : State) (u : Json) :
  currentDeviceId s = getDeviceFingerprint v env →
  user s = None →
  user (handleLogin v s) = Some u →
  ∃ s', restoreSession syntaxErrorMessage v env
          (initialState (localStorage (handleLogin v s))) = Returns s'
        ∧ user s' = Some u
        ∧ localStorage s' = localStorage (handleLogin v s).
Proof.
  intros Hfp Hnone Hu.
  destruct (handleLogin_success v s u Hnone Hu) as (-> & Hst & _).
  rewrite (restoreSession_parsed syntaxErrorMessage v env _
             (JSON_stringify_User (username (loginForm s)) (currentDeviceId s))
             (User (username (loginForm s)) (currentDeviceId s))
             (Some (JStr (currentDeviceId s)))).
  - rewrite <- Hfp. unfold strict_equals_string.
    rewrite bool_decide_eq_true_2 by reflexivity.
    eexists. split; [reflexivity|]. split; reflexivity.
  - simpl. rewrite Hst. apply lookup_insert_eq.
  - rewrite JSON_stringify_User_text. discriminate.
  - apply parse_text_stringify_User.
  - reflexivity.
Qed.

End Reload.

Lemma login_survives_reload_witness :
  ∃ s', restoreSession engine_message Variant2 linux_firefox
          (initialState (localStorage
             (run engine_message Variant2 login_admin (fresh_start Variant2 linux_firefox))))
        = Returns s'
        ∧ user s' = Some (User (js "admin") (js "TW96aWxsYS81LjAg")).
Proof.
  destruct (login_survives_reload engine_message Variant2 linux_firefox
              (run engine_message Variant2 [EditUsername (js "admin"); EditPassword (js "0000")]
                 (fresh_start Variant2 linux_firefox))
              (User (js "admin") (js "TW96aWxsYS81LjAg")))
    as (s' & Hs' & Hu & _).
  - vm_compute. reflexivity.
  - reflexivity.
  - vm_compute. reflexivity.
  - exists s'. split; [exact Hs' | exact Hu].
Defined.

(* ===================================================================== *)
(** ** Instances on concrete inputs *)

Lemma handleLogin_device_not_authorized_witness :
  ∃ msg,
    authError (handleLogin Variant1
      (run engine_message Variant1 [EditUsername (js "admin"); EditPassword (js "0000")]
         (fresh_start Variant1 linux_firefox))) = Some msg
    ∧ contains (getDeviceFingerprint Variant1 linux_firefox) msg
    ∧ msg ≠ invalid_credentials
    ∧ user (handleLogin Variant1
        (run engine_message Variant1 [EditUsername (js "admin"); EditPassword (js "0000")]
           (fresh_start Variant1 linux_firefox)))
      = user (run engine_message Variant1 [EditUsername (js "admin"); EditPassword (js "0000")]
           (fresh_start Variant1 linux_firefox))
    ∧ localStorage (handleLogin Variant1
        (run engine_message Variant1 [EditUsername (js "admin"); EditPassword (js "0000")]
           (fresh_start Variant1 linux_firefox)))
      = localStorage (run engine_message Variant1
           [EditUsername (js "admin"); EditPassword (js "0000")]
           (fresh_start Variant1 linux_firefox)).
Proof.
  apply (handleLogin_device_not_authorized engine_message Variant1 linux_firefox ∅
           (fresh_start Variant1 linux_firefox)
           [EditUsername (js "admin"); EditPassword (js "0000")]
           {| pass := js "0000"; deviceIds := [] |}).
  - reflexivity.
  - vm_compute. reflexivity.
  - reflexivity.
  - apply not_elem_of_nil.
Defined.

Lemma handleLogin_invalid_credentials_witness :
  handleLogin Variant2 unknown_user = setAuthError (Some invalid_credentials) unknown_user
  ∧ handleLogin Variant2 wrong_password
    = setAuthError (Some invalid_credentials) wrong_password
  ∧ authError (handleLogin Variant2 unknown_user)
    = authError (handleLogin Variant2 wrong_password).
Proof.
  assert (H1 : AUTHORIZED_USERS Variant2 !! username (loginForm unknown_user) = None)
    by (vm_compute; reflexivity).
  assert (H2 : AUTHORIZED_USERS Variant2 !! username (loginForm wrong_password)
               = Some {| pass := js "0000";
                         deviceIds := [ js "TW96aWxsYS81LjAg"; js "REVCVUctREVWSUNFLTI=" ] |})
    by (vm_compute; reflexivity).
  destruct (handleLogin_invalid_credentials Variant2 unknown_user (or_introl H1))
    as (E1 & A1 & _).
  assert (H3 : js "0000" ≠ password (loginForm wrong_password))
    by (vm_compute; discriminate).
  destruct (handleLogin_invalid_credentials Variant2 wrong_password
              (or_intror (ex_intro _ _ (conj H2 H3))))
    as (E2 & A2 & _).
  split; [exact E1|]. split; [exact E2|]. rewrite A1, A2. reflexivity.
Defined.

Lemma restoreSession_checks_fingerprint_witness :
  (∃ s', restoreSession engine_message Variant2 linux_firefox (initialState stored_session)
         = Returns s'
         ∧ user s' = Some (User (js "admin") (js "TW96aWxsYS81LjAg"))
         ∧ localStorage s' = stored_session)
  ∧ (∃ s', restoreSession engine_message Variant2 linux_firefox (initialState stale_session)
           = Returns s'
           ∧ user s' = None
           ∧ localStorage s' !! storage_key = None).
Proof.
  split.
  - destruct (proj1 (restoreSession_checks_fingerprint engine_message
                       Variant2 linux_firefox stored_session)
                (JSON_stringify_User (js "admin") (js "TW96aWxsYS81LjAg"))
                (User (js "admin") (js "TW96aWxsYS81LjAg"))
                (Some (JStr (js "TW96aWxsYS81LjAg"))))
      as (s' & Hs' & _ & Heq).
    + vm_compute. reflexivity.
    + discriminate.
    + vm_compute. reflexivity.
    + vm_compute. reflexivity.
    + exists s'. split; [exact Hs'|]. apply Heq. vm_compute. reflexivity.
  - destruct (proj1 (restoreSession_checks_fingerprint engine_message
                       Variant2 linux_firefox stale_session)
                (JSON_stringify_User (js "admin") (js "REVCVUctREVWSUNFLTI="))
                (User (js "admin") (js "REVCVUctREVWSUNFLTI="))
                (Some (JStr (js "REVCVUctREVWSUNFLTI="))))
      as (s' & Hs' & Hne & _).
    + vm_compute. reflexivity.
    + discriminate.
    + vm_compute. reflexivity.
    + vm_compute. reflexivity.
    + exists s'. split; [exact Hs'|].
      destruct Hne as (Hu & Hl & _); [vm_compute; discriminate|]. split; assumption.
Defined.

Lemma handleSubmit_empty_title_witness :
  handleSubmit (fresh_start Variant1 linux_firefox) = fresh_start Variant1 linux_firefox.
Proof.
  exact (proj1 (handleSubmit_empty_title (fresh_start Variant1 linux_firefox) eq_refl)).
Defined.

Lemma generateMovieRecap_failure_witness :
  (∃ e, generateMovieRecap engine_message (answers (js "I cannot help")) (formData titled_form)
        = Throws e)
  ∧ status (step engine_message Variant2 Submit titled_form) = GENERATING
  ∧ status (step engine_message Variant2
              (Settle (length (pending titled_form)) (answers (js "I cannot help")))
              (step engine_message Variant2 Submit titled_form)) = ERROR
  ∧ recap (step engine_message Variant2
             (Settle (length (pending titled_form)) (answers (js "I cannot help")))
             (step engine_message Variant2 Submit titled_form)) = recap titled_form
  ∧ pending (step engine_message Variant2
               (Settle (length (pending titled_form)) (answers (js "I cannot help")))
               (step engine_message Variant2 Submit titled_form)) = pending titled_form.
Proof.
  assert (Hp : parse_text (js "I cannot help") = None) by (vm_compute; reflexivity).
  assert (Ht : MovieInfo.title (formData titled_form) ≠ []).
  { intros H. vm_compute in H. discriminate H. }
  destruct (generateMovieRecap_failure engine_message
              (answers (js "I cannot help")) (formData titled_form)
              {| text := Some (js "I cannot help") |} eq_refl
              (or_intror (or_intror (ex_intro _ (js "I cannot help") (conj eq_refl Hp)))))
    as [Hthrow Hrun].
  split; [exact Hthrow|].
  destruct (Hrun Variant2 titled_form eq_refl Ht) as (H1 & _ & H2 & H3 & H4 & _).
  split; [exact H1|]. split; [exact H2|]. split; [exact H3 | exact H4].
Defined.

Lemma generateMovieRecap_conformant_witness :
  generateMovieRecap engine_message (answers inception_recap_text) inception
  = Returns inception_recap
  ∧ is_GeneratedRecap inception_recap.
Proof.
  destruct (generateMovieRecap_conformant engine_message (answers inception_recap_text)
              inception {| text := Some inception_recap_text |} inception_recap_text
              inception_recap eq_refl eq_refl)
    as (E & Hshape & _).
  - vm_compute. reflexivity.
  - vm_compute. reflexivity.
  - split; [exact E | exact Hshape].
Defined.

(** Against the populated recap of the specification: a response that
    conforms to the schema with an empty tagline and no takeaways is
    returned as it is. *)
Lemma hollow_recap_not_populated :
  ∃ j, parse_text hollow_recap_text = Some j
       ∧ conforms responseSchema j = true
       ∧ generateMovieRecap engine_message (answers hollow_recap_text) inception = Returns j
       ∧ get_prop j (js "tagline") = Returns (Some (JStr []))
       ∧ get_prop j (js "keyTakeaways") = Returns (Some (JArr []))
       ∧ ¬ recap_populated j.
Proof.
  eexists. split; [vm_compute; reflexivity|].
  split; [vm_compute; reflexivity|]. split; [vm_compute; reflexivity|].
  split; [vm_compute; reflexivity|]. split; [vm_compute; reflexivity|].
  intros [(c & t & H) _]. vm_compute in H. discriminate.
Qed.

Lemma status_transitions_witness :
  status (run engine_message Variant2 failed_recap (fresh_start Variant2 linux_firefox)) = ERROR
  ∧ status (step engine_message Variant2 Submit
              (run engine_message Variant2 failed_recap (fresh_start Variant2 linux_firefox)))
    = GENERATING.
Proof.
  split; [vm_compute; reflexivity|].
  destruct (status_transitions engine_message Variant2
              (run engine_message Variant2 failed_recap (fresh_start Variant2 linux_firefox))
              Submit ltac:(vm_compute; reflexivity))
    as (_ & _ & H).
  rewrite H. vm_compute. reflexivity.
Defined.

(** Against the specification's list of transitions, three that are not
    on it: after a failed request the form is submitted again, from ERROR
    to GENERATING; a logout while a request is awaited goes from
    GENERATING to IDLE; and that request, settling after the logout, goes
    from IDLE to COMPLETED. *)
Lemma unlisted_transitions :
  restoreSession engine_message Variant2 linux_firefox (initialState ∅)
  = Returns (fresh_start Variant2 linux_firefox)
  ∧ (status (run engine_message Variant2 failed_recap (fresh_start Variant2 linux_firefox))
     = ERROR
     ∧ enabled Variant2
         (run engine_message Variant2 failed_recap (fresh_start Variant2 linux_firefox)) Submit
       = true
     ∧ status (step engine_message Variant2 Submit
                 (run engine_message Variant2 failed_recap (fresh_start Variant2 linux_firefox)))
       = GENERATING
     ∧ listed_transition ERROR GENERATING = false)
  ∧ (status (run engine_message Variant2 (login_admin ++ [EditTitle (js "Inception"); Submit])
               (fresh_start Variant2 linux_firefox))
     = GENERATING
     ∧ enabled Variant2
         (run engine_message Variant2 (login_admin ++ [EditTitle (js "Inception"); Submit])
            (fresh_start Variant2 linux_firefox)) Logout
       = true
     ∧ status (step engine_message Variant2 Logout
                 (run engine_message Variant2
                    (login_admin ++ [EditTitle (js "Inception"); Submit])
                    (fresh_start Variant2 linux_firefox)))
       = IDLE
     ∧ listed_transition GENERATING IDLE = false)
  ∧ (status (run engine_message Variant2 logout_while_generating
               (fresh_start Variant2 linux_firefox))
     = IDLE
     ∧ enabled Variant2
         (run engine_message Variant2 logout_while_generating
            (fresh_start Variant2 linux_firefox))
         (Settle 0 (answers inception_recap_text))
       = true
     ∧ status (step engine_message Variant2 (Settle 0 (answers inception_recap_text))
                 (run engine_message Variant2 logout_while_generating
                    (fresh_start Variant2 linux_firefox)))
       = COMPLETED
     ∧ listed_transition IDLE COMPLETED = false)
  ∧ ¬ only_listed_transitions engine_message.
Proof.
  assert (H0 : restoreSession engine_message Variant2 linux_firefox (initialState ∅)
               = Returns (fresh_start Variant2 linux_firefox)) by reflexivity.
  assert (H1 : status (run engine_message Variant2 failed_recap
                         (fresh_start Variant2 linux_firefox)) = ERROR)
    by (vm_compute; reflexivity).
  assert (H2 : enabled Variant2
                 (run engine_message Variant2 failed_recap
                    (fresh_start Variant2 linux_firefox)) Submit = true)
    by (vm_compute; reflexivity).
  assert (H3 : status (step engine_message Variant2 Submit
                         (run engine_message Variant2 failed_recap
                            (fresh_start Variant2 linux_firefox))) = GENERATING)
    by (vm_compute; reflexivity).
  split; [exact H0|].
  split. { split; [exact H1|]. split; [exact H2|]. split; [exact H3 | reflexivity]. }
  split. { vm_compute. repeat split. }
  split. { vm_compute. repeat split. }
  intros H. specialize (H Variant2 linux_firefox ∅ _ failed_recap Submit H0 H2).
  rewrite H1, H3 in H. destruct H; discriminate.
Qed.


(* ===================================================================== *)
(** ** Further properties: the shape of a fingerprint *)

Lemma forallb_drop {A} (p : A → bool) (n : nat) (l : list A) :
  forallb p l = true → forallb p (drop n l) = true.
Proof.
  revert n. induction l as [|x l IH]; intros [|n] H; simpl in *; try done.
  apply andb_true_iff in H as [_ H]. apply IH, H.
Qed.

Lemma toUpperCase_class (c : N) :
  in_class_a_z_A_Z_0_0 c = true →
  is_id_char (if is_lower c then c - 32 else c) = true.
Proof.
  unfold in_class_a_z_A_Z_0_0, is_id_char.
  destruct (is_lower c) eqn:El.
  - intros _. unfold is_lower in El. apply andb_true_iff in El as [H1%N.leb_le H2%N.leb_le].
    unfold is_upper. apply orb_true_iff. left.
    apply andb_true_iff. split; apply N.leb_le; lia.
  - simpl. done.
Qed.

Lemma toUpperCase_strip (b : jsstring) :
  forallb is_id_char (toUpperCase (strip_non_class b)) = true.
Proof.
  unfold toUpperCase, strip_non_class.
  induction b as [|c b IH]; simpl; [reflexivity|].
  destruct (in_class_a_z_A_Z_0_0 c) eqn:E; [|exact IH].
  simpl. rewrite (toUpperCase_class c E). exact IH.
Qed.

Lemma toUpperCase_drop (n : nat) (l : jsstring) :
  toUpperCase (drop n l) = drop n (toUpperCase l).
Proof.
  unfold toUpperCase. revert n. induction l as [|c l IH]; intros [|n]; simpl; try done.
Qed.

(** X2. A variant 1 fingerprint is either the sentinel or at most twelve
    code units, each an upper-case letter or the digit zero: the character
    class [[a-zA-Z0-0]] drops the digits 1 to 9 together with the
    punctuation of base64. *)
Theorem getDeviceFingerprint_Variant1_alphabet (env : Env) :
  getDeviceFingerprint Variant1 env = js "ERR-DEVICE-ID"
  ∨ ((length (getDeviceFingerprint Variant1 env) ≤ 12)%nat
     ∧ forallb is_id_char (getDeviceFingerprint Variant1 env) = true).
Proof.
  unfold getDeviceFingerprint, getDeviceFingerprint_result, encode_id, try_catch, rbind.
  destruct (btoa _) as [b|]; [right | left; reflexivity].
  split.
  - unfold toUpperCase, slice_suffix. rewrite length_map, length_drop. lia.
  - unfold slice_suffix. rewrite toUpperCase_drop.
    apply forallb_drop, toUpperCase_strip.
Qed.

Lemma take_16_b64_encode (l : jsstring) :
  (12 ≤ length l)%nat → take 16 (b64_encode l) = b64_encode (take 12 l).
Proof.
  intros H. do 12 (destruct l as [|? l]; [simpl in H; lia|]). reflexivity.
Qed.

Lemma idString_Variant2_userAgent (env : Env) :
  ∃ rest, idString Variant2 env = userAgent env ++ rest.
Proof. eexists. unfold idString, join. reflexivity. Qed.

Lemma getDeviceFingerprint_Variant2_prefix (env : Env) :
  is_latin1 (idString Variant2 env) = true →
  (12 ≤ length (userAgent env))%nat →
  getDeviceFingerprint Variant2 env = b64_encode (take 12 (userAgent env)).
Proof.
  intros Hl Hua.
  unfold getDeviceFingerprint, getDeviceFingerprint_result, encode_id, try_catch, rbind, btoa.
  rewrite Hl. unfold slice_prefix.
  destruct (idString_Variant2_userAgent env) as [rest E]. rewrite E.
  rewrite take_16_b64_encode by (rewrite length_app; lia).
  rewrite take_app_le by exact Hua. reflexivity.
Qed.

(** X3. When [btoa] succeeds and the user agent has at least twelve code
    units, a variant 2 fingerprint is the base64 of the first twelve code
    units of the user agent and nothing else: language, colour depth,
    screen, timezone and the [chrome] flag never reach it.  Two browsers
    whose user agents start alike share their fingerprint. *)
Theorem getDeviceFingerprint_Variant2_userAgent (e1 e2 : Env) :
  is_latin1 (idString Variant2 e1) = true →
  is_latin1 (idString Variant2 e2) = true →
  (12 ≤ length (userAgent e1))%nat →
  take 12 (userAgent e1) = take 12 (userAgent e2) →
  getDeviceFingerprint Variant2 e1 = b64_encode (take 12 (userAgent e1))
  ∧ getDeviceFingerprint Variant2 e1 = getDeviceFingerprint Variant2 e2.
Proof.
  intros H1 H2 Hlen Hua.
  assert (Hlen2 : (12 ≤ length (userAgent e2))%nat).
  { apply (f_equal length) in Hua. rewrite !length_take in Hua. lia. }
  rewrite (getDeviceFingerprint_Variant2_prefix e1 H1 Hlen).
  rewrite (getDeviceFingerprint_Variant2_prefix e2 H2 Hlen2).
  rewrite Hua. split; reflexivity.
Qed.

Lemma getDeviceFingerprint_Variant2_userAgent_witness :
  linux_firefox ≠ mac_safari
  ∧ getDeviceFingerprint Variant2 linux_firefox = js "TW96aWxsYS81LjAg"
  ∧ getDeviceFingerprint Variant2 linux_firefox = getDeviceFingerprint Variant2 mac_safari.
Proof.
  assert (H1 : is_latin1 (idString Variant2 linux_firefox) = true) by (vm_compute; reflexivity).
  assert (H2 : is_latin1 (idString Variant2 mac_safari) = true) by (vm_compute; reflexivity).
  assert (H3 : (12 ≤ length (userAgent linux_firefox))%nat) by (vm_compute; lia).
  assert (H4 : take 12 (userAgent linux_firefox) = take 12 (userAgent mac_safari))
    by (vm_compute; reflexivity).
  destruct (getDeviceFingerprint_Variant2_userAgent linux_firefox mac_safari H1 H2 H3 H4)
    as [E1 E2].
  split; [discriminate|]. split; [|exact E2].
  rewrite E1. vm_compute. reflexivity.
Defined.


(* ===================================================================== *)
(** ** Further properties: login *)

Lemma handleLogin_granted (v : Variant) (s : State) (c : AuthEntry) :
  AUTHORIZED_USERS v !! username (loginForm s) = Some c →
  pass c = password (loginForm s) →
  currentDeviceId s ∈ deviceIds c →
  handleLogin v s
  = localStorage_setItem storage_key
      (JSON_stringify_User (username (loginForm s)) (currentDeviceId s))
      (setUser (Some (User (username (loginForm s)) (currentDeviceId s)))
         (setAuthError None s)).
Proof.
  intros Hc Hp Hd. unfold handleLogin, AUTHORIZED_USERS_get. simpl.
  rewrite Hc. rewrite bool_decide_eq_false_2 by (intros H; apply H, Hp).
  rewrite bool_decide_eq_true_2 by exact Hd. reflexivity.
Qed.

(** X4. A login succeeds when the username has an entry, the password
    matches it and the device id of the page is in the entry's
    [deviceIds]: the user becomes the pair of username and device id, the
    same pair is stored as JSON under the session key, an earlier login
    error is cleared, and no other key of [localStorage] is touched. *)
Theorem handleLogin_creates_session (v : Variant) (s : State) (c : AuthEntry) :
  AUTHORIZED_USERS v !! username (loginForm s) = Some c →
  pass c = password (loginForm s) →
  currentDeviceId s ∈ deviceIds c →
  user (handleLogin v s) = Some (User (username (loginForm s)) (currentDeviceId s))
  ∧ localStorage (handleLogin v s) !! storage_key
    = Some (JSON_stringify_User (username (loginForm s)) (currentDeviceId s))
  ∧ authError (handleLogin v s) = None
  ∧ ∀ k, k ≠ storage_key → localStorage (handleLogin v s) !! k = localStorage s !! k.
Proof.
  intros Hc Hp Hd. rewrite (handleLogin_granted v s c Hc Hp Hd). simpl.
  split; [reflexivity|]. split; [apply lookup_insert_eq|]. split; [reflexivity|].
  intros k Hk. apply lookup_insert_ne. congruence.
Qed.

Lemma handleLogin_creates_session_witness :
  user (handleLogin Variant2 mac_admin)
  = Some (User (js "admin") (js "TW96aWxsYS81LjAg"))
  ∧ authError (handleLogin Variant2 mac_admin) = None.
Proof.
  destruct (handleLogin_creates_session Variant2 mac_admin
              {| pass := js "0000";
                 deviceIds := [ js "TW96aWxsYS81LjAg"; js "REVCVUctREVWSUNFLTI=" ] |})
    as (Hu & _ & Ha & _).
  - vm_compute. reflexivity.
  - reflexivity.
  - vm_compute. left.
  - split; [|exact Ha]. rewrite Hu. vm_compute. reflexivity.
Defined.

(** X5. Variant 2 admits, as the administrator's device, every browser
    whose user agent starts with the twelve code units of "Mozilla/5.0 ":
    with such a user agent (and [btoa] succeeding) the administrator's
    credentials log in, whatever the rest of the environment is. *)
Theorem admin_login_any_Mozilla (env : Env) (s : State) :
  is_latin1 (idString Variant2 env) = true →
  take 12 (userAgent env) = js "Mozilla/5.0 " →
  currentDeviceId s = getDeviceFingerprint Variant2 env →
  username (loginForm s) = js "admin" →
  password (loginForm s) = js "0000" →
  user (handleLogin Variant2 s) = Some (User (js "admin") (js "TW96aWxsYS81LjAg")).
Proof.
  intros Hl Hua Hfp Hu Hp.
  assert (Hlen : (12 ≤ length (userAgent env))%nat).
  { apply (f_equal length) in Hua. rewrite length_take in Hua.
    change (length (js "Mozilla/5.0 ")) with 12%nat in Hua. lia. }
  assert (Hid : currentDeviceId s = js "TW96aWxsYS81LjAg").
  { rewrite Hfp, (getDeviceFingerprint_Variant2_prefix env Hl Hlen), Hua.
    vm_compute. reflexivity. }
  rewrite (handleLogin_granted Variant2 s
             {| pass := js "0000";
                deviceIds := [ js "TW96aWxsYS81LjAg"; js "REVCVUctREVWSUNFLTI=" ] |}).
  - simpl. rewrite Hu, Hid. reflexivity.
  - rewrite Hu. vm_compute. reflexivity.
  - rewrite Hp. reflexivity.
  - rewrite Hid. simpl. left.
Qed.

Lemma admin_login_any_Mozilla_witness :
  user (handleLogin Variant2 mac_admin) = Some (User (js "admin") (js "TW96aWxsYS81LjAg")).
Proof.
  apply (admin_login_any_Mozilla mac_safari mac_admin).
  - vm_compute. reflexivity.
  - vm_compute. reflexivity.
  - reflexivity.
  - reflexivity.
  - reflexivity.
Defined.

Lemma AUTHORIZED_USERS_Variant1_deviceIds (u : jsstring) (c : AuthEntry) :
  AUTHORIZED_USERS Variant1 !! u = Some c → deviceIds c = [].
Proof.
  unfold AUTHORIZED_USERS.
  intros [[_ <-] | [_ H]]%lookup_insert_Some; [reflexivity|].
  apply lookup_singleton_Some in H as [_ <-]. reflexivity.
Qed.

Lemma device_denied_nonempty v deviceId username : device_denied v deviceId username ≠ [].
Proof. destruct v; discriminate. Qed.

Lemma handleLogin_fails_empty (v : Variant) (s : State) :
  (∀ u c, AUTHORIZED_USERS v !! u = Some c → deviceIds c = []) →
  ∃ m, m ≠ [] ∧ handleLogin v s = setAuthError (Some m) s.
Proof.
  intros Hempty. unfold handleLogin, AUTHORIZED_USERS_get. simpl.
  destruct (AUTHORIZED_USERS v !! username (loginForm s)) as [c|] eqn:Hc.
  - destruct (bool_decide (pass c ≠ password (loginForm s))).
    { exists invalid_credentials. split; [discriminate | reflexivity]. }
    rewrite (Hempty _ c Hc).
    rewrite bool_decide_eq_false_2 by apply not_elem_of_nil. simpl.
    eexists. split; [apply device_denied_nonempty | reflexivity].
  - exists invalid_credentials. split; [discriminate|].
    destruct (bool_decide _); reflexivity.
Qed.

Lemma handleLogin_Variant1_fails (s : State) :
  ∃ m, m ≠ [] ∧ handleLogin Variant1 s = setAuthError (Some m) s.
Proof. apply handleLogin_fails_empty, AUTHORIZED_USERS_Variant1_deviceIds. Qed.

Section Coverage.

Variable syntaxErrorMessage : jsstring → jsstring.

(** X6. In variant 1 every allow-list is empty, so no login ever
    succeeds: from a logged-out page, whatever events follow, the page
    stays logged out and [localStorage] stays as it was.  The studio is
    reached only through a session that is already stored. *)
Theorem Variant1_stays_logged_out (s : State) (trace : list Event) :
  user s = None →
  user (run syntaxErrorMessage Variant1 trace s) = None
  ∧ localStorage (run syntaxErrorMessage Variant1 trace s) = localStorage s.
Proof.
  revert s. induction trace as [|e rest IH]; intros s Hu; simpl; [done|].
  destruct (enabled Variant1 s e) eqn:He; [|apply IH, Hu].
  assert (H : user (step syntaxErrorMessage Variant1 e s) = None
              ∧ localStorage (step syntaxErrorMessage Variant1 e s) = localStorage s).
  { destruct e; simpl in *; rewrite ?Hu in He; try done.
    - destruct (handleLogin_Variant1_fails s) as (m & _ & ->). done.
    - case_match; [|done]. settled_cases; done. }
  destruct H as [H1 H2]. rewrite <- H2. apply IH, H1.
Qed.

End Coverage.

Lemma Variant1_stays_logged_out_witness :
  user (run engine_message Variant1 login_admin (fresh_start Variant1 linux_firefox)) = None.
Proof.
  exact (proj1 (Variant1_stays_logged_out engine_message
                  (fresh_start Variant1 linux_firefox) login_admin eq_refl)).
Defined.

Lemma session_invariant_witness :
  session_valid (getDeviceFingerprint Variant2 linux_firefox)
    (run engine_message Variant2 completed_recap (fresh_start Variant2 linux_firefox)).
Proof.
  exact (session_invariant engine_message Variant2 linux_firefox ∅
           (fresh_start Variant2 linux_firefox) completed_recap eq_refl).
Defined.

(* ===================================================================== *)
(** ** Further properties: the session and its storage *)

Section Session.

Variable syntaxErrorMessage : jsstring → jsstring.

Lemma restoreSession_session_stored v env storage s0 :
  restoreSession syntaxErrorMessage v env (initialState storage) = Returns s0 →
  session_stored s0.
Proof.
  unfold restoreSession. simpl.
  destruct (storage !! storage_key) as [[|c t]|] eqn:Hraw;
    try (intros [= <-] u; discriminate).
  unfold JSON_parse.
  destruct (parse_text (c :: t)) as [parsedUser|] eqn:Hp; [|discriminate]. simpl.
  destruct (get_prop parsedUser (js "deviceId")) as [d|]; [|discriminate]. simpl.
  destruct (strict_equals_string d _); intros [= <-] u; [|discriminate].
  simpl. intros [= <-]. eauto.
Qed.

Lemma step_session_stored v e s :
  enabled v s e = true → session_stored s →
  session_stored (step syntaxErrorMessage v e s).
Proof.
  intros He H. destruct e; simpl in *; try exact H.
  - apply bool_decide_eq_true in He. intros u Hu.
    destruct (handleLogin_success v s u He Hu) as (-> & -> & _).
    eexists. split; [apply lookup_insert_eq | apply parse_text_stringify_User].
  - intros u. discriminate.
  - unfold handleSubmit. case_match; exact H.
  - case_match; [|exact H]. settled_cases; exact H.
Qed.

(** X9. After startup, whatever events follow, a logged-in user is what
    the text stored under the session key parses to: the page and its
    storage never disagree about who is logged in. *)
Theorem session_stored_invariant v env storage s0 trace :
  restoreSession syntaxErrorMessage v env (initialState storage) = Returns s0 →
  session_stored (run syntaxErrorMessage v trace s0).
Proof.
  intros H0%restoreSession_session_stored. revert s0 H0.
  induction trace as [|e rest IH]; intros s H; simpl; [exact H|].
  apply IH. destruct (enabled v s e) eqn:He; [|exact H].
  apply step_session_stored; assumption.
Qed.

(** X10. The startup effect throws, nothing catching it, exactly when a
    non-empty text is stored under the session key and that text is not
    JSON or is the JSON value [null]. *)
Theorem restoreSession_throws_iff v env storage :
  (∃ e, restoreSession syntaxErrorMessage v env (initialState storage) = Throws e)
  ↔ ∃ c t, storage !! storage_key = Some (c :: t)
           ∧ (parse_text (c :: t) = None ∨ parse_text (c :: t) = Some JNull).
Proof.
  unfold restoreSession. simpl.
  destruct (storage !! storage_key) as [[|c t]|].
  - split; [intros [e [=]] | intros (c & t & [=] & _)].
  - unfold JSON_parse.
    destruct (parse_text (c :: t)) as [parsedUser|] eqn:Hp; simpl.
    + destruct parsedUser; simpl.
      1: { split; [intros _; exists c, t; eauto | intros _; eauto]. }
      all: try destruct (strict_equals_string _ _).
      all: split;
        [ intros [e [=]]
        | intros (c' & t' & Heq & [H | H]); simplify_eq ].
    + split; [intros _; exists c, t; eauto | intros _; eauto].
  - split; [intros [e [=]] | intros (c & t & [=] & _)].
Qed.

Lemma restoreSession_nothing v env s :
  localStorage s !! storage_key = None ∨ localStorage s !! storage_key = Some [] →
  restoreSession syntaxErrorMessage v env s
  = Returns (setCurrentDeviceId (getDeviceFingerprint v env) s).
Proof. unfold restoreSession. simpl. intros [-> | ->]; reflexivity. Qed.

(** X11. With no text stored under the session key, or the empty text,
    the startup effect only records the device id: nobody is logged in,
    the storage is as it was, and the login form is what the page offers. *)
Theorem restoreSession_nothing_stored v env storage :
  storage !! storage_key = None ∨ storage !! storage_key = Some [] →
  ∃ s', restoreSession syntaxErrorMessage v env (initialState storage) = Returns s'
        ∧ user s' = None
        ∧ localStorage s' = storage
        ∧ currentDeviceId s' = getDeviceFingerprint v env
        ∧ enabled v s' Login = true.
Proof.
  intros H. rewrite restoreSession_nothing by exact H.
  eexists. split; [reflexivity|]. repeat split.
Qed.

(** X12. The startup effect is idempotent: run again on the state it
    returned, it returns that state and changes nothing more. *)
Theorem restoreSession_idempotent v env s s' :
  restoreSession syntaxErrorMessage v env s = Returns s' →
  restoreSession syntaxErrorMessage v env s' = Returns s'.
Proof.
  unfold restoreSession at 1. simpl.
  destruct (localStorage s !! storage_key) as [[|c t]|] eqn:Hraw.
  - intros [= <-]. rewrite restoreSession_nothing by (right; exact Hraw). reflexivity.
  - destruct (JSON_parse syntaxErrorMessage (c :: t)) as [parsedUser|] eqn:Hp;
      [|discriminate]. simpl.
    destruct (get_prop parsedUser (js "deviceId")) as [d|] eqn:Hd; [|discriminate]. simpl.
    destruct (strict_equals_string d _) eqn:Heq; intros [= <-].
    + unfold restoreSession. simpl. rewrite Hraw, Hp. simpl. rewrite Hd. simpl.
      rewrite Heq. reflexivity.
    + unfold restoreSession. simpl. rewrite lookup_delete_eq. reflexivity.
  - intros [= <-]. rewrite restoreSession_nothing by (left; exact Hraw). reflexivity.
Qed.

Lemma restoreSession_other_keys v env s s' k :
  k ≠ storage_key →
  restoreSession syntaxErrorMessage v env s = Returns s' →
  localStorage s' !! k = localStorage s !! k.
Proof.
  intros Hk. unfold restoreSession. simpl.
  destruct (localStorage s !! storage_key) as [[|c t]|]; try (intros [= <-]; reflexivity).
  destruct (JSON_parse syntaxErrorMessage (c :: t)) as [parsedUser|]; [|discriminate]. simpl.
  destruct (get_prop parsedUser (js "deviceId")) as [d|]; [|discriminate]. simpl.
  destruct (strict_equals_string d _); intros [= <-]; [reflexivity|].
  simpl. apply lookup_delete_ne. congruence.
Qed.

Lemma handleLogin_other_keys v s k :
  k ≠ storage_key → localStorage (handleLogin v s) !! k = localStorage s !! k.
Proof.
  intros Hk. unfold handleLogin. repeat case_match; simpl; try reflexivity.
  apply lookup_insert_ne. congruence.
Qed.

Lemma step_other_keys v e s k :
  k ≠ storage_key →
  localStorage (step syntaxErrorMessage v e s) !! k = localStorage s !! k.
Proof.
  intros Hk. destruct e; simpl; try reflexivity.
  - apply handleLogin_other_keys, Hk.
  - apply lookup_delete_ne. congruence.
  - unfold handleSubmit. case_match; reflexivity.
  - case_match; [|reflexivity]. settled_cases; reflexivity.
Qed.

(** X13. The page reads and writes one key of [localStorage] only: the
    startup effect and every event after it leave the value of any other
    key as it was. *)
Theorem localStorage_other_keys v env storage s0 trace k :
  k ≠ storage_key →
  restoreSession syntaxErrorMessage v env (initialState storage) = Returns s0 →
  localStorage (run syntaxErrorMessage v trace s0) !! k = storage !! k.
Proof.
  intros Hk H0. apply (restoreSession_other_keys v env _ _ k Hk) in H0. simpl in H0.
  rewrite <- H0. clear H0. revert s0.
  induction trace as [|e rest IH]; intros s; simpl; [reflexivity|].
  rewrite IH. case_match; [apply step_other_keys, Hk | reflexivity].
Qed.

(** X14. A logout ends the session for good: the user, the recap and the
    login form are cleared, the status is IDLE, the stored session is
    gone, and a reload afterwards finds nobody logged in.  It does not
    touch the requests still awaited, the error of the last request or
    the recap form. *)
Theorem handleLogout_ends_session v env s :
  user (handleLogout s) = None
  ∧ recap (handleLogout s) = None
  ∧ status (handleLogout s) = IDLE
  ∧ loginForm (handleLogout s) = {| username := []; password := [] |}
  ∧ localStorage (handleLogout s) !! storage_key = None
  ∧ pending (handleLogout s) = pending s
  ∧ error (handleLogout s) = error s
  ∧ formData (handleLogout s) = formData s
  ∧ ∃ s', restoreSession syntaxErrorMessage v env
            (initialState (localStorage (handleLogout s))) = Returns s'
          ∧ user s' = None.
Proof.
  assert (Hk : localStorage (handleLogout s) !! storage_key = None)
    by apply lookup_delete_eq.
  repeat (split; [reflexivity || exact Hk|]).
  rewrite restoreSession_nothing by (left; exact Hk).
  eexists. split; reflexivity.
Qed.

(** X15. No handler but login and logout touches the session: every other
    event leaves the logged-in user and [localStorage] exactly as they
    were. *)
Theorem step_keeps_session v e s :
  e ≠ Login → e ≠ Logout →
  user (step syntaxErrorMessage v e s) = user s
  ∧ localStorage (step syntaxErrorMessage v e s) = localStorage s.
Proof.
  intros H1 H2. destruct e; simpl; try done.
  - unfold handleSubmit. case_match; done.
  - case_match; [|done]. settled_cases; done.
Qed.

End Session.

(* ===================================================================== *)
(** ** Further properties: requests in flight *)

Section Flight.

Variable syntaxErrorMessage : jsstring → jsstring.

Lemma restoreSession_frame v env s s' :
  restoreSession syntaxErrorMessage v env s = Returns s' →
  status s' = status s ∧ pending s' = pending s ∧ formData s' = formData s
  ∧ recap s' = recap s ∧ error s' = error s.
Proof.
  unfold restoreSession. simpl.
  destruct (localStorage s !! storage_key) as [[|c t]|]; try (intros [= <-]; done).
  destruct (JSON_parse syntaxErrorMessage (c :: t)) as [parsedUser|]; [|discriminate]. simpl.
  destruct (get_prop parsedUser (js "deviceId")) as [d|]; [|discriminate]. simpl.
  destruct (strict_equals_string d _); intros [= <-]; done.
Qed.

Lemma step_generating_pending v e s :
  match e with
  | Settle _ ai => ∀ request, ai request ≠ Throws Nullish
  | _ => True
  end →
  (status s = GENERATING → pending s ≠ []) →
  status (step syntaxErrorMessage v e s) = GENERATING →
  pending (step syntaxErrorMessage v e s) ≠ [].
Proof.
  intros Hai H. destruct e; simpl; try exact H; try discriminate.
  - rewrite handleLogin_status. unfold handleLogin. repeat case_match; exact H.
  - unfold handleSubmit. case_match; [exact H|]. simpl. intros _.
    destruct (pending s); discriminate.
  - case_match; [|exact H].
    match goal with
    | |- context [handleSubmit_settled ?engine ?ai ?info ?s'] =>
        destruct (handleSubmit_settled_cases engine ai info s')
          as [(? & _ & ->) | [(? & ? & _ & ->) | [E _]]]
    end; try discriminate.
    contradict E. apply generateMovieRecap_not_Nullish, Hai.
Qed.

(** X16. After startup, whatever events follow, as long as no request is
    rejected with [null] or [undefined], the status is GENERATING only
    while a request is awaited: the page then never shows a request in
    progress that can no longer settle.  (A request rejected with [null]
    or [undefined] is no longer awaited and leaves the status at
    GENERATING, see [stuck_generating].) *)
Theorem generating_has_request v env storage s0 trace :
  restoreSession syntaxErrorMessage v env (initialState storage) = Returns s0 →
  rejections_have_properties trace →
  status (run syntaxErrorMessage v trace s0) = GENERATING →
  pending (run syntaxErrorMessage v trace s0) ≠ [].
Proof.
  intros (Hst & _)%restoreSession_frame Hai. simpl in Hst.
  assert (H0 : status s0 = GENERATING → pending s0 ≠ []) by (rewrite Hst; discriminate).
  clear Hst. revert s0 H0.
  induction Hai as [|e rest He Hrest IH]; intros s H; simpl; [exact H|].
  apply IH. destruct (enabled v s e);
    [apply step_generating_pending; [exact He | exact H] | exact H].
Qed.

Lemma step_single_flight v e s :
  e ≠ Logout → enabled v s e = true →
  single_flight s → single_flight (step syntaxErrorMessage v e s).
Proof.
  intros Hne He H. destruct e; simpl in *; try exact H; try done.
  - unfold single_flight. rewrite handleLogin_status.
    replace (pending (handleLogin v s)) with (pending s); [exact H|].
    unfold handleLogin. repeat case_match; reflexivity.
  - apply andb_true_iff in He as [_ Hg%negb_true_iff%bool_decide_eq_false].
    destruct H as [Hl Hs].
    assert (Hp : pending s = []).
    { destruct (pending s) as [|x l]; [reflexivity|]. exfalso. apply Hg, Hs. discriminate. }
    unfold handleSubmit. case_match; [split; done|].
    split; simpl; rewrite Hp; done.
  - apply bool_decide_eq_true in He as [info Hi]. rewrite Hi.
    destruct H as [Hl _].
    destruct (pending s) as [|x [|y l]] eqn:Ep; try discriminate; [|simpl in Hl; lia].
    destruct i as [|i]; [|discriminate].
    settled_cases; (split; simpl; [lia | done]).
  - apply andb_true_iff in He as [He _]. apply andb_true_iff in He as [_ Hc].
    apply bool_decide_eq_true in Hc.
    destruct H as [Hl Hs]. split; [exact Hl|].
    intros Hp. specialize (Hs Hp). congruence.
Qed.

(** X17. As long as nobody logs out, at most one request is awaited, and
    one is awaited only while the status is GENERATING: the disabled
    submit button keeps requests from overlapping.  (A logout leaves the
    awaited request in place, and a second one can then join it.) *)
Theorem single_request_in_flight v env storage s0 trace :
  no_logout trace = true →
  restoreSession syntaxErrorMessage v env (initialState storage) = Returns s0 →
  (length (pending (run syntaxErrorMessage v trace s0)) ≤ 1)%nat
  ∧ (pending (run syntaxErrorMessage v trace s0) ≠ [] →
     status (run syntaxErrorMessage v trace s0) = GENERATING).
Proof.
  intros Hno (Hst & Hp & _)%restoreSession_frame. simpl in Hst, Hp.
  assert (H0 : single_flight s0) by (split; rewrite Hp; simpl; [lia | done]).
  clear Hst Hp.
  change (single_flight (run syntaxErrorMessage v trace s0)).
  { revert s0 H0. induction trace as [|e rest IH]; intros s H; simpl; [exact H|].
    simpl in Hno. apply andb_true_iff in Hno as [He Hno].
    apply IH; [exact Hno|].
    destruct (enabled v s e) eqn:Hen; [|exact H].
    apply step_single_flight; [|exact Hen | exact H].
    intros ->. discriminate. }
Qed.

Lemma step_form_bounds v e s :
  enabled v s e = true → form_bounds s → form_bounds (step syntaxErrorMessage v e s).
Proof.
  intros He (Ht & Hl & Hp). destruct e; simpl in *; try (split; [|split]; assumption).
  - unfold handleLogin. repeat case_match; (split; [|split]; assumption).
  - apply andb_true_iff in He as [_ Hx%bool_decide_eq_true].
    split; [|split]; assumption.
  - unfold handleSubmit. destruct (MovieInfo.title (formData s)) eqn:Etitle.
    + split; [|split]; assumption.
    + simpl. split; [|split]; try assumption.
      apply Forall_app. split; [exact Hp|]. constructor; [|constructor].
      split; [rewrite Etitle; discriminate | split; assumption].
  - case_match; [|split; [|split]; assumption].
    settled_cases; simpl; (split; [|split]; try assumption);
      apply Forall_delete, Hp.
Qed.

(** X18. After startup, whatever events follow, every request awaited was
    made from the form: its title is not empty, its tone is one of
    [TONES], and its length is "medium", the length the form starts with
    and offers no control to change. *)
Theorem requests_from_form v env storage s0 trace :
  restoreSession syntaxErrorMessage v env (initialState storage) = Returns s0 →
  Forall from_form (pending (run syntaxErrorMessage v trace s0))
  ∧ MovieInfo.length (formData (run syntaxErrorMessage v trace s0)) = medium.
Proof.
  intros (_ & Hp & Hf & _)%restoreSession_frame. simpl in Hp, Hf.
  assert (H0 : form_bounds s0).
  { unfold form_bounds. rewrite Hp, Hf. simpl. split; [left | split; [done | constructor]]. }
  clear Hp Hf.
  assert (H : form_bounds (run syntaxErrorMessage v trace s0)).
  { revert s0 H0. induction trace as [|e rest IH]; intros s H; simpl; [exact H|].
    apply IH. destruct (enabled v s e) eqn:He; [|exact H].
    apply step_form_bounds; assumption. }
  destruct H as (_ & Hl & Hp). split; assumption.
Qed.

End Flight.

(** A request rejected with [undefined] leaves the page at GENERATING
    with nothing awaited: the submit button stays disabled, no reset is
    offered, and only a logout leads back to IDLE. *)
Example stuck_generating :
  let s := run engine_message Variant2 rejected_with_undefined
             (fresh_start Variant2 linux_firefox) in
  status s = GENERATING ∧ pending s = [] ∧ error s = None
  ∧ enabled Variant2 s Submit = false ∧ enabled Variant2 s Reset = false
  ∧ status (step engine_message Variant2 Logout s) = IDLE.
Proof. vm_compute. repeat split. Qed.

Example two_requests_after_logout :
  no_logout submit_twice = false
  ∧ length (pending (run engine_message Variant2 submit_twice
                       (fresh_start Variant2 linux_firefox))) = 2%nat.
Proof. vm_compute. split; reflexivity. Qed.

(* ===================================================================== *)
(** ** Further properties: the recap request and its outcome *)

Section Outcome.

Variable syntaxErrorMessage : jsstring → jsstring.

(** X19. [generateMovieRecap] returns a value exactly when the external
    call is fulfilled with a non-empty text that is JSON, and the value is
    what the text parses to, whatever its shape; when the call is
    rejected, the rejection reaches the caller as it is. *)
Theorem generateMovieRecap_returns_iff
    (ai : Request → Result Response) (info : MovieInfo.t) :
  (∀ j, generateMovieRecap syntaxErrorMessage ai info = Returns j
        ↔ ∃ r c t, ai (request_of info) = Returns r
                   ∧ text r = Some (c :: t)
                   ∧ parse_text (c :: t) = Some j)
  ∧ (∀ e, ai (request_of info) = Throws e →
          generateMovieRecap syntaxErrorMessage ai info = Throws e).
Proof.
  unfold generateMovieRecap. split.
  - intros j. destruct (ai (request_of info)) as [r|e]; simpl.
    + destruct (text r) as [[|c t]|] eqn:Et.
      * split; [discriminate | intros (r' & c & t & [= <-] & Ht & _); congruence].
      * unfold JSON_parse. destruct (parse_text (c :: t)) as [j'|] eqn:Hp.
        -- split.
           ++ intros [= <-]. exists r, c, t. done.
           ++ intros (r' & c' & t' & [= <-] & Ht & Hj). congruence.
        -- split; [discriminate|].
           intros (r' & c' & t' & [= <-] & Ht & Hj). congruence.
      * split; [discriminate | intros (r' & c & t & [= <-] & Ht & _); congruence].
    + split; [discriminate | intros (r & c & t & [=] & _)].
  - intros e ->. reflexivity.
Qed.

(** X20. What the submit handler stores as the error when a request
    fails.  With the status set to ERROR: the text No response from AI
    for a response without text or with the empty text; the message of
    the rejection when the call is rejected with a value that has a
    non-empty message; and the text Failed to generate recap. when it is
    rejected with a value, neither [null] nor [undefined], that has no
    message or an empty one.  When the call is rejected with [null] or
    [undefined] the [catch] block throws before it stores anything: the
    state, and with it the error and the status, stays as it was. *)
Theorem handleSubmit_error_message
    (ai : Request → Result Response) (info : MovieInfo.t) (s : State) :
  (∀ r, ai (request_of info) = Returns r →
        text r = None ∨ text r = Some [] →
        error (handleSubmit_settled syntaxErrorMessage ai info s)
        = Some (js "No response from AI")
        ∧ status (handleSubmit_settled syntaxErrorMessage ai info s) = ERROR)
  ∧ (∀ name c m, ai (request_of info) = Throws (mkThrown name (Some (c :: m))) →
        error (handleSubmit_settled syntaxErrorMessage ai info s) = Some (c :: m)
        ∧ status (handleSubmit_settled syntaxErrorMessage ai info s) = ERROR)
  ∧ (∀ name message, ai (request_of info) = Throws (mkThrown name message) →
        message = None ∨ message = Some [] →
        error (handleSubmit_settled syntaxErrorMessage ai info s)
        = Some (js "Failed to generate recap.")
        ∧ status (handleSubmit_settled syntaxErrorMessage ai info s) = ERROR)
  ∧ (ai (request_of info) = Throws Nullish →
        handleSubmit_settled syntaxErrorMessage ai info s = s).
Proof.
  unfold handleSubmit_settled, generateMovieRecap.
  split; [|split; [|split]].
  - intros r Hr Ht. rewrite Hr. simpl.
    destruct Ht as [-> | ->]; split; reflexivity.
  - intros name c m Hr. rewrite Hr. split; reflexivity.
  - intros name message Hr Hm. rewrite Hr.
    destruct Hm as [-> | ->]; split; reflexivity.
  - intros Hr. rewrite Hr. reflexivity.
Qed.

(** X21. A request that is answered with JSON completes, whatever the
    JSON is: submitting the form and having the request settle with such
    a text takes the status to COMPLETED, stores the parsed value as the
    recap ([null] as no recap), clears the error of an earlier failure
    and leaves no request awaited beyond those there before.  When the
    value is [null] the COMPLETED panel, and with it the reset button, is
    not offered. *)
Theorem handleSubmit_completes
    (ai : Request → Result Response) (v : Variant) (s : State)
    (r : Response) (c : N) (t : jsstring) (j : Json) :
  MovieInfo.title (formData s) ≠ [] →
  ai (request_of (formData s)) = Returns r →
  text r = Some (c :: t) →
  parse_text (c :: t) = Some j →
  status (step syntaxErrorMessage v (Settle (length (pending s)) ai)
            (step syntaxErrorMessage v Submit s)) = COMPLETED
  ∧ recap (step syntaxErrorMessage v (Settle (length (pending s)) ai)
             (step syntaxErrorMessage v Submit s)) = nullable j
  ∧ error (step syntaxErrorMessage v (Settle (length (pending s)) ai)
             (step syntaxErrorMessage v Submit s)) = None
  ∧ pending (step syntaxErrorMessage v (Settle (length (pending s)) ai)
               (step syntaxErrorMessage v Submit s)) = pending s
  ∧ (j = JNull →
     enabled v (step syntaxErrorMessage v (Settle (length (pending s)) ai)
                  (step syntaxErrorMessage v Submit s)) Reset = false).
Proof.
  intros Ht Hr Htext Hp.
  assert (E : generateMovieRecap syntaxErrorMessage ai (formData s) = Returns j).
  { unfold generateMovieRecap. rewrite Hr. simpl. rewrite Htext.
    unfold JSON_parse. rewrite Hp. reflexivity. }
  assert (E1 : step syntaxErrorMessage v Submit s
               = setPending (pending s ++ [formData s])
                   (setError None (setStatus GENERATING s))).
  { simpl. unfold handleSubmit.
    destruct (MovieInfo.title (formData s)); [done | reflexivity]. }
  rewrite E1. cbn [step pending setPending].
  rewrite list_lookup_middle by reflexivity.
  unfold handleSubmit_settled. rewrite E. rewrite delete_last_pending.
  repeat split. intros ->. simpl. rewrite !andb_false_r. reflexivity.
Qed.

End Outcome.

(* ===================================================================== *)
(** ** Further properties: the copy button of the login form *)

Lemma includes_Unauthorized_Device (deviceId username : jsstring) :
  includes (js "Unauthorized Device") (device_denied Variant2 deviceId username) = true.
Proof.
  apply includes_spec. exists [].
  exists (js ". Please provide this ID to the admin to add it to your account: " ++ deviceId).
  reflexivity.
Qed.

Lemma enabled_CopyDeviceId_Variant2 (s : State) (m : jsstring) :
  user s = None → m ≠ [] →
  enabled Variant2 (setAuthError (Some m) s) CopyDeviceId
  = includes (js "Unauthorized Device") m.
Proof.
  intros Hu Hm. unfold enabled. simpl. rewrite Hu.
  destruct m; [done | reflexivity].
Qed.

Lemma handleLogin_cases (v : Variant) (s : State) :
  handleLogin v s = setAuthError (Some invalid_credentials) s
  ∨ (∃ c, AUTHORIZED_USERS v !! username (loginForm s) = Some c
          ∧ pass c = password (loginForm s)
          ∧ (currentDeviceId s ∉ deviceIds c)
          ∧ handleLogin v s
            = setAuthError
                (Some (device_denied v (currentDeviceId s) (username (loginForm s)))) s)
  ∨ (∃ u, user (handleLogin v s) = Some u).
Proof.
  unfold handleLogin, AUTHORIZED_USERS_get. simpl.
  destruct (AUTHORIZED_USERS v !! username (loginForm s)) as [c|] eqn:Hc.
  - destruct (bool_decide (pass c ≠ password (loginForm s))) eqn:Hp; [left; reflexivity|].
    apply bool_decide_eq_false in Hp.
    destruct (bool_decide (currentDeviceId s ∈ deviceIds c)) eqn:Hd; simpl.
    + right. right. eauto.
    + right. left. exists c. apply bool_decide_eq_false in Hd.
      split; [reflexivity|]. split; [|done].
      destruct (decide (pass c = password (loginForm s))); [done | contradiction].
  - left. destruct (bool_decide _); reflexivity.
Qed.

Lemma includes_invalid_credentials :
  includes (js "Unauthorized Device") invalid_credentials = false.
Proof. vm_compute. reflexivity. Qed.

(** X22. After a login attempt on the login form, variant 2 offers the
    button that copies the device id exactly when the attempt failed on
    the device check, and not after wrong credentials or a success;
    variant 1 offers it after every attempt, wrong credentials
    included. *)
Theorem copy_button_after_login (s : State) :
  user s = None →
  enabled Variant1 (handleLogin Variant1 s) CopyDeviceId = true
  ∧ (enabled Variant2 (handleLogin Variant2 s) CopyDeviceId = true
     ↔ ∃ c, AUTHORIZED_USERS Variant2 !! username (loginForm s) = Some c
            ∧ pass c = password (loginForm s)
            ∧ currentDeviceId s ∉ deviceIds c).
Proof.
  intros Hu. split.
  - destruct (handleLogin_Variant1_fails s) as (m & Hm & E). rewrite E.
    unfold enabled. simpl. rewrite Hu. destruct m; done.
  - split.
    + destruct (handleLogin_cases Variant2 s) as [E | [(c & Hc & Hp & Hd & E) | [u E]]].
      * rewrite E, (enabled_CopyDeviceId_Variant2 _ _ Hu) by discriminate.
        rewrite includes_invalid_credentials. discriminate.
      * intros _. eauto.
      * unfold enabled. rewrite E. discriminate.
    + intros (c & Hc & Hp & Hd).
      rewrite (handleLogin_denied Variant2 s c Hc Hp Hd).
      rewrite (enabled_CopyDeviceId_Variant2 _ _ Hu) by apply device_denied_nonempty.
      apply includes_Unauthorized_Device.
Qed.

(* ===================================================================== *)
(** ** Further properties: what a stored session is checked against *)

Section Stored.

Variable syntaxErrorMessage : jsstring → jsstring.

Lemma restoreSession_stringified v env storage name deviceId :
  storage !! storage_key = Some (JSON_stringify_User name deviceId) →
  restoreSession syntaxErrorMessage v env (initialState storage)
  = Returns
      (if bool_decide (deviceId = getDeviceFingerprint v env)
       then setUser (Some (User name deviceId))
              (setCurrentDeviceId (getDeviceFingerprint v env) (initialState storage))
       else localStorage_removeItem storage_key
              (setCurrentDeviceId (getDeviceFingerprint v env) (initialState storage))).
Proof.
  intros Hraw.
  rewrite (restoreSession_parsed syntaxErrorMessage v env _
             (JSON_stringify_User name deviceId) (User name deviceId)
             (Some (JStr deviceId))).
  - reflexivity.
  - exact Hraw.
  - rewrite JSON_stringify_User_text. discriminate.
  - apply parse_text_stringify_User.
  - reflexivity.
Qed.

(** X23. The startup effect checks a stored session against the
    fingerprint alone: a stored pair that carries the current fingerprint
    is restored as the logged-in user whatever its username is, in the
    authorization table or not.  The table and the password are never
    consulted on this path. *)
Theorem restoreSession_ignores_table v env storage name :
  storage !! storage_key
  = Some (JSON_stringify_User name (getDeviceFingerprint v env)) →
  ∃ s', restoreSession syntaxErrorMessage v env (initialState storage) = Returns s'
        ∧ user s' = Some (User name (getDeviceFingerprint v env))
        ∧ enabled v s' Submit = true.
Proof.
  intros Hraw. rewrite (restoreSession_stringified v env storage name _ Hraw).
  rewrite bool_decide_eq_true_2 by reflexivity.
  eexists. split; [reflexivity|]. split; reflexivity.
Qed.

(** X24. A session does not survive a change of fingerprint: when the
    startup effect runs, over the storage a successful login left, in an
    environment whose fingerprint differs from the device id of that
    login, nobody is logged in and the stored session is removed. *)
Theorem login_lost_on_new_fingerprint v env s u :
  user s = None →
  user (handleLogin v s) = Some u →
  getDeviceFingerprint v env ≠ currentDeviceId s →
  ∃ s', restoreSession syntaxErrorMessage v env
          (initialState (localStorage (handleLogin v s))) = Returns s'
        ∧ user s' = None
        ∧ localStorage s' !! storage_key = None.
Proof.
  intros Hnone Hu Hfp.
  destruct (handleLogin_success v s u Hnone Hu) as (_ & Hst & _).
  rewrite (restoreSession_stringified v env _ (username (loginForm s)) (currentDeviceId s))
    by (rewrite Hst; apply lookup_insert_eq).
  rewrite bool_decide_eq_false_2 by congruence.
  eexists. split; [reflexivity|]. split; [reflexivity | apply lookup_delete_eq].
Qed.

End Stored.

(* ===================================================================== *)
(** ** Instances of the further properties *)

Lemma session_stored_invariant_witness :
  session_stored
    (run engine_message Variant2 completed_recap (fresh_start Variant2 linux_firefox)).
Proof.
  exact (session_stored_invariant engine_message Variant2 linux_firefox ∅
           (fresh_start Variant2 linux_firefox) completed_recap eq_refl).
Defined.

Lemma restoreSession_throws_iff_witness :
  ∃ e, restoreSession engine_message Variant1 linux_firefox (initialState null_session)
       = Throws e.
Proof.
  apply (proj2 (restoreSession_throws_iff engine_message Variant1 linux_firefox null_session)).
  exists 110, (js "ull"). split; [vm_compute; reflexivity|].
  right. vm_compute. reflexivity.
Defined.

Lemma restoreSession_nothing_stored_witness :
  ∃ s', restoreSession engine_message Variant1 linux_firefox (initialState ∅) = Returns s'
        ∧ user s' = None
        ∧ localStorage s' = ∅
        ∧ currentDeviceId s' = getDeviceFingerprint Variant1 linux_firefox
        ∧ enabled Variant1 s' Login = true.
Proof.
  apply (restoreSession_nothing_stored engine_message Variant1 linux_firefox ∅).
  left. reflexivity.
Defined.

Lemma restoreSession_idempotent_witness :
  restoreSession engine_message Variant2 linux_firefox shared_start = Returns shared_start.
Proof.
  apply (restoreSession_idempotent engine_message Variant2 linux_firefox
           (initialState shared_storage) shared_start).
  vm_compute. reflexivity.
Defined.

Lemma localStorage_other_keys_witness :
  localStorage (run engine_message Variant2 failed_recap shared_start) !! js "theme"
  = shared_storage !! js "theme".
Proof.
  apply (localStorage_other_keys engine_message Variant2 linux_firefox shared_storage
           shared_start failed_recap (js "theme")).
  - discriminate.
  - vm_compute. reflexivity.
Defined.

Lemma step_keeps_session_witness :
  user (step engine_message Variant2 Submit titled_form) = user titled_form
  ∧ localStorage (step engine_message Variant2 Submit titled_form)
    = localStorage titled_form.
Proof.
  apply (step_keeps_session engine_message Variant2 Submit titled_form); discriminate.
Defined.

Lemma generating_has_request_witness :
  pending (run engine_message Variant2 rejected_then_retried
             (fresh_start Variant2 linux_firefox)) ≠ [].
Proof.
  apply (generating_has_request engine_message Variant2 linux_firefox ∅
           (fresh_start Variant2 linux_firefox) rejected_then_retried).
  - reflexivity.
  - unfold rejections_have_properties, rejected_then_retried, login_admin. simpl.
    repeat (constructor; [first [exact I | intros request; discriminate] |]).
    constructor.
  - vm_compute. reflexivity.
Defined.

Lemma single_request_in_flight_witness :
  (length (pending (run engine_message Variant2 failed_recap
                      (fresh_start Variant2 linux_firefox))) ≤ 1)%nat
  ∧ (pending (run engine_message Variant2 failed_recap
                (fresh_start Variant2 linux_firefox)) ≠ [] →
     status (run engine_message Variant2 failed_recap
               (fresh_start Variant2 linux_firefox)) = GENERATING).
Proof.
  apply (single_request_in_flight engine_message Variant2 linux_firefox ∅
           (fresh_start Variant2 linux_firefox) failed_recap).
  - vm_compute. reflexivity.
  - reflexivity.
Defined.

Lemma requests_from_form_witness :
  Forall from_form (pending generating)
  ∧ MovieInfo.length (formData generating) = medium.
Proof.
  exact (requests_from_form engine_message Variant2 linux_firefox ∅
           (fresh_start Variant2 linux_firefox)
           (login_admin ++ [EditTitle (js "Inception"); Submit]) eq_refl).
Defined.

Lemma generateMovieRecap_returns_iff_witness :
  generateMovieRecap engine_message (answers inception_recap_text) inception
  = Returns inception_recap
  ∧ generateMovieRecap engine_message (rejects (Some (js "Failed to fetch"))) inception
    = Throws (mkThrown (js "Error") (Some (js "Failed to fetch"))).
Proof.
  destruct (generateMovieRecap_returns_iff engine_message
              (answers inception_recap_text) inception) as [H1 _].
  destruct (generateMovieRecap_returns_iff engine_message
              (rejects (Some (js "Failed to fetch"))) inception) as [_ H2].
  split.
  - apply H1. exists {| text := Some inception_recap_text |}, 123, (tail inception_recap_text).
    split; [reflexivity|]. split; [reflexivity|]. vm_compute. reflexivity.
  - apply H2. reflexivity.
Defined.

Lemma handleSubmit_error_message_witness :
  error (handleSubmit_settled engine_message (answers []) inception titled_form)
  = Some (js "No response from AI")
  ∧ error (handleSubmit_settled engine_message (rejects (Some (js "Failed to fetch")))
             inception titled_form)
    = Some (js "Failed to fetch")
  ∧ error (handleSubmit_settled engine_message (rejects None) inception titled_form)
    = Some (js "Failed to generate recap.")
  ∧ handleSubmit_settled engine_message (λ _, Throws Nullish) inception generating
    = generating.
Proof.
  destruct (handleSubmit_error_message engine_message (answers []) inception titled_form)
    as (H1 & _ & _ & _).
  destruct (handleSubmit_error_message engine_message (rejects (Some (js "Failed to fetch")))
              inception titled_form) as (_ & H2 & _ & _).
  destruct (handleSubmit_error_message engine_message (rejects None) inception titled_form)
    as (_ & _ & H3 & _).
  destruct (handleSubmit_error_message engine_message (λ _, Throws Nullish) inception
              generating) as (_ & _ & _ & H4).
  split; [|split; [|split]].
  - exact (proj1 (H1 {| text := Some [] |} eq_refl (or_intror eq_refl))).
  - exact (proj1 (H2 (js "Error") 70 (js "ailed to fetch") eq_refl)).
  - exact (proj1 (H3 (js "Error") None eq_refl (or_introl eq_refl))).
  - exact (H4 eq_refl).
Defined.

Lemma handleSubmit_completes_witness :
  status (step engine_message Variant2
            (Settle (length (pending titled_form)) (answers inception_recap_text))
            (step engine_message Variant2 Submit titled_form)) = COMPLETED
  ∧ recap (step engine_message Variant2
             (Settle (length (pending titled_form)) (answers inception_recap_text))
             (step engine_message Variant2 Submit titled_form)) = Some inception_recap.
Proof.
  assert (Ht : MovieInfo.title (formData titled_form) ≠ []).
  { intros H. vm_compute in H. discriminate H. }
  assert (Hp : parse_text (123 :: tail inception_recap_text) = Some inception_recap)
    by (vm_compute; reflexivity).
  destruct (handleSubmit_completes engine_message (answers inception_recap_text)
              Variant2 titled_form {| text := Some inception_recap_text |}
              123 (tail inception_recap_text) inception_recap Ht eq_refl eq_refl Hp)
    as (H1 & H2 & _).
  split; [exact H1 | exact H2].
Defined.

Lemma copy_button_after_login_witness :
  enabled Variant1 (handleLogin Variant1 wrong_password) CopyDeviceId = true
  ∧ enabled Variant2 (handleLogin Variant2 wrong_password) CopyDeviceId = false.
Proof.
  destruct (copy_button_after_login wrong_password eq_refl) as [H1 H2].
  split; [exact H1|].
  destruct (enabled Variant2 (handleLogin Variant2 wrong_password) CopyDeviceId) eqn:E;
    [|reflexivity].
  destruct (proj1 H2 eq_refl) as (c & Hc & Hp & _).
  vm_compute in Hc. injection Hc as <-. vm_compute in Hp. discriminate Hp.
Defined.

Lemma restoreSession_ignores_table_witness :
  AUTHORIZED_USERS Variant1 !! js "nobody" = None
  ∧ ∃ s', restoreSession engine_message Variant1 linux_firefox (initialState forged_session)
          = Returns s'
          ∧ user s' = Some (User (js "nobody") (getDeviceFingerprint Variant1 linux_firefox))
          ∧ enabled Variant1 s' Submit = true.
Proof.
  split; [vm_compute; reflexivity|].
  apply (restoreSession_ignores_table engine_message Variant1 linux_firefox
           forged_session (js "nobody")).
  vm_compute. reflexivity.
Defined.

Lemma login_lost_on_new_fingerprint_witness :
  ∃ s', restoreSession engine_message Variant2 branded_browser
          (initialState (localStorage (handleLogin Variant2 mac_admin))) = Returns s'
        ∧ user s' = None
        ∧ localStorage s' !! storage_key = None.
Proof.
  apply (login_lost_on_new_fingerprint engine_message Variant2 branded_browser mac_admin
           (User (js "admin") (js "TW96aWxsYS81LjAg"))).
  - reflexivity.
  - vm_compute. reflexivity.
  - vm_compute. discriminate.
Defined.
